(** * Language negotiation middleware for Hoa

    A shallow embedding of [src/index.ts] (option validation, the four
    detectors, the negotiation loop, the cookie cache and the middleware
    wrapper) together with the header-value parser [parseAccept] that
    [index.ts] imports from [./utils.ts].

    Conventions.
    - A JavaScript string is a [string]: a sequence of 8-bit code units.
      [trim] strips the ECMAScript white space and line terminators of that
      range, [toLowerCase] folds [A-Z]; other code units are left alone.
    - [undefined] and [null] are [None] where the code does not tell them
      apart, and separate constructors where a value may also be an array or
      [false].
    - A computation that may throw returns a [Completion]; one that also
      talks to the console or to the cookie collaborator lives in [Eff],
      which logs every such call as an [Event], in program order. [await] is
      sequencing: the code never starts two asynchronous calls at once. *)

From Stdlib Require Import QArith Ascii Sorted.
From stdpp Require Import gmap strings list fin_maps.

Local Open Scope string_scope.
Local Open Scope list_scope.
Local Open Scope Z_scope.

(** ** Errors, completions and effects *)

Inductive JSError :=
| Error (message : string)
| TypeError (message : string)
| HttpError (status : Z) (message : string).

Inductive Completion (A : Type) :=
| Normal (a : A)
| Throw (e : JSError).
Arguments Normal {A} a.
Arguments Throw {A} e.

#[global] Instance Completion_ret : MRet Completion := fun _ a => Normal a.
#[global] Instance Completion_bind : MBind Completion := fun _ _ f m =>
  match m with
  | Normal a => f a
  | Throw e => Throw e
  end.

(** What a request can observe of the middleware besides its result. *)
Inductive Event :=
| Call (detectorName : string)          (* [detector(ctx, options)] *)
| ConsoleLog (message : string)         (* [console.log] *)
| ConsoleError (message : string)       (* [console.error] *)
| SetCookie (name value : string).      (* [ctx.res.setCookie(name, value)] *)

Definition Eff (A : Type) : Type := list Event * Completion A.

#[global] Instance Eff_ret : MRet Eff := fun _ a => ([], Normal a).
#[global] Instance Eff_bind : MBind Eff := fun _ _ f m =>
  match m.2 with
  | Normal a => (m.1 ++ (f a).1, (f a).2)
  | Throw e => (m.1, Throw e)
  end.

Definition emit (ev : Event) : Eff unit := ([ev], Normal tt).
Definition throw {A} (e : JSError) : Eff A := ([], Throw e).
Definition lift {A} (c : Completion A) : Eff A := ([], c).

(** [try { body } catch (error) { handler }] *)
Definition try_catch {A} (body : Eff A) (handler : JSError → Eff A) : Eff A :=
  match body.2 with
  | Normal a => body
  | Throw e => (body.1 ++ (handler e).1, (handler e).2)
  end.

Definition when (b : bool) (m : Eff unit) : Eff unit :=
  if b then m else mret tt.

(** ** String primitives *)

Definition chars : string → list ascii := String.list_ascii_of_string.
Definition str : list ascii → string := String.string_of_list_ascii.

(** White space and line terminators below U+0100 that [String.prototype.trim]
    removes and that are single code units here: TAB, LF, VT, FF, CR, SP. *)
Definition isWhiteSpace (c : ascii) : bool :=
  let n := N_of_ascii c in
  ((n =? 32) || ((9 <=? n) && (n <=? 13)))%N.

(** Drop the leading, then the trailing, characters that satisfy [ws]. *)
Fixpoint dropWhileStart (ws : ascii → bool) (l : list ascii) : list ascii :=
  match l with
  | c :: l' => if ws c then dropWhileStart ws l' else l
  | [] => []
  end.

Definition trimBy (ws : ascii → bool) (l : list ascii) : list ascii :=
  rev (dropWhileStart ws (rev (dropWhileStart ws l))).

(** [s.trim()] *)
Definition trim (s : string) : string := str (trimBy isWhiteSpace (chars s)).

Definition lowerChar (c : ascii) : ascii :=
  let n := N_of_ascii c in
  if ((65 <=? n) && (n <=? 90))%N then ascii_of_N (n + 32) else c.

Definition toLowerCase (s : string) : string := str (map lowerChar (chars s)).

(** [s.split(sep)] for a one-character separator. *)
Fixpoint split (sep : ascii) (s : string) : list string :=
  match s with
  | EmptyString => [EmptyString]
  | String c s' =>
      if Ascii.eqb c sep then EmptyString :: split sep s'
      else match split sep s' with
           | piece :: pieces => String c piece :: pieces
           | [] => [String c EmptyString]
           end
  end.

(** Truthiness of a string, and of a [string | undefined]. *)
Definition truthy (s : string) : bool := negb (String.eqb s "").

Definition truthy_opt (o : option string) : bool :=
  match o with
  | Some s => truthy s
  | None => false
  end.

(** ** Array primitives *)

(** [arr.includes(x)] *)
Definition includes (arr : list string) (x : string) : bool :=
  existsb (String.eqb x) arr.

(** [arr.find(l => l === x)] *)
Definition find_eq (x : string) (arr : list string) : option string :=
  List.find (fun l => String.eqb l x) arr.

(** [arr.indexOf(x)]: the first index holding [x], or [-1]. *)
Fixpoint indexOf (arr : list string) (x : string) : Z :=
  match arr with
  | [] => -1
  | y :: arr' =>
      if String.eqb y x then 0
      else let i := indexOf arr' x in if i <? 0 then -1 else i + 1
  end.

(** [arr[i]]: [undefined] outside the array. *)
Definition at_index (arr : list string) (i : Z) : option string :=
  if i <? 0 then None else arr !! Z.to_nat i.

(** ** The header-value parser ([./utils.ts], imported by [index.ts])

    [utils.ts] itself is not part of the sources at hand: only its caller
    ([parseAcceptLanguage]) and its test suite are. The parser below is
    therefore written from the specification (sections 3, 4.1 and 8) and
    checked against the expectations of the test suite. *)

Definition comma : ascii := ","%char.
Definition semicolon : ascii := ";"%char.
Definition equals : ascii := "="%char.
Definition dquote : ascii := "034"%char.
Definition squote : ascii := "'"%char.

(** Modelled from the spec: the Entry of section 3, one parsed item of a
    structured header value (the declaration in [utils.ts] is missing). [q]
    is the exact rational the q text denotes; the rounding of that rational
    to a double is not modelled. *)
Record Accept := {
  type : string;
  params : gmap string string;
  q : Q
}.

(** Modelled from the spec: what a q text is interpreted as (section 4.1,
    QualityResolver step 3): a number, one of the two infinities, or not a
    number. *)
Inductive JSNumber :=
| NaN
| PosInfinity
| NegInfinity
| Finite (x : Q).

Definition isDigit (c : ascii) : bool :=
  let n := N_of_ascii c in ((48 <=? n) && (n <=? 57))%N.

Definition digitValue (c : ascii) : Z := Z.of_N (N_of_ascii c) - 48.

(** The value of a run of decimal digits, most significant first. *)
Definition digitsValue (l : list ascii) : Z :=
  foldl (fun acc c => 10 * acc + digitValue c) 0 l.

Fixpoint takeDigits (l : list ascii) : list ascii * list ascii :=
  match l with
  | c :: l' =>
      if isDigit c then let (ds, rest) := takeDigits l' in (c :: ds, rest)
      else ([], l)
  | [] => ([], [])
  end.

Definition isNil {A} (l : list A) : bool :=
  match l with [] => true | _ => false end.

(** Modelled from the spec: the "decimals" of QualityResolver step 3: digits,
    optionally a point and more digits, with a digit on at least one side of
    the point. *)
Definition parseDecimal (l : list ascii) : option Q :=
  let (ip, rest) := takeDigits l in
  match rest with
  | [] => if isNil ip then None else Some (inject_Z (digitsValue ip))
  | c :: fp =>
      if Ascii.eqb c "."%char && forallb isDigit fp
         && negb (isNil ip && isNil fp)
      then Some (Qmake (digitsValue (ip ++ fp))
                       (Z.to_pos (10 ^ Z.of_nat (length fp))))
      else None
  end.

Definition signed (negative : bool) (rest : list ascii) : JSNumber :=
  if String.eqb (str rest) "Infinity"
  then (if negative then NegInfinity else PosInfinity)
  else match parseDecimal rest with
       | Some x => Finite (if negative then Qopp x else x)
       | None => NaN
       end.

(** Modelled from the spec: the number interpretation of QualityResolver
    step 3, which accepts a sign, decimals and the two infinity tokens;
    everything else, the token [NaN] included, is not a number. *)
Definition toNumber (s : string) : JSNumber :=
  match chars s with
  | c :: rest =>
      if Ascii.eqb c "+"%char then signed false rest
      else if Ascii.eqb c "-"%char then signed true rest
      else signed false (c :: rest)
  | [] => NaN
  end.

(** Modelled from the spec: QualityResolver step 4, clamping into [0,1]. *)
Definition clamp01 (x : Q) : Q :=
  if negb (Qle_bool x 1) then 1%Q
  else if negb (Qle_bool 0 x) then 0%Q
  else x.

(** Modelled from the spec: the QualityResolver of section 4.1 (the function
    of [utils.ts] that derives [q] is missing), given the raw q value of an
    entry, [None] when no q key was accepted. *)
Definition parseQuality (qVal : option string) : Q :=
  match qVal with
  | None => 1%Q
  | Some v =>
      if String.eqb v "" then 1%Q
      else match toNumber v with
           | NaN => 1%Q
           | PosInfinity => 1%Q
           | NegInfinity => 0%Q
           | Finite x => clamp01 x
           end
  end.

(** The quoted span the scanner is in: [None] outside, [Some c] after an
    opening quote character [c] that has not been closed yet. *)
Definition isQuote (c : ascii) : bool :=
  Ascii.eqb c dquote || Ascii.eqb c squote.

Definition quoteStep (open : option ascii) (c : ascii) : option ascii :=
  match open with
  | Some c' => if Ascii.eqb c c' then None else open
  | None => if isQuote c then Some c else None
  end.

Definition outside (open : option ascii) : bool :=
  match open with None => true | Some _ => false end.

(** Modelled from the spec: the quote-aware delimiter scan of section 4.1.
    The result is the token up to the first delimiter outside a quoted span,
    and the tokens after it. *)
Fixpoint splitOutsideQuotes (delim : ascii) (open : option ascii)
    (l : list ascii) : list ascii * list (list ascii) :=
  match l with
  | [] => ([], [])
  | c :: l' =>
      if outside open && Ascii.eqb c delim
      then ([], let (tok, toks) := splitOutsideQuotes delim None l' in
                tok :: toks)
      else let (tok, toks) := splitOutsideQuotes delim (quoteStep open c) l' in
           (c :: tok, toks)
  end.

(** Modelled from the spec: the white space the parser trims (space, tab,
    newline). *)
Definition isHeaderSpace (c : ascii) : bool :=
  let n := N_of_ascii c in ((n =? 32) || (n =? 9) || (n =? 10))%N.

Definition trimHeader (l : list ascii) : string := str (trimBy isHeaderSpace l).

(** Modelled from the spec: parameter acceptance (section 4.1). A chunk with
    exactly one [=] and a key that is not empty after trimming is recorded,
    a later occurrence of a key replacing an earlier one; any other chunk is
    dropped. *)
Definition addParam (acc : gmap string string) (chunk : list ascii)
    : gmap string string :=
  match split equals (str chunk) with
  | [key; val] =>
      let key := trimHeader (chars key) in
      if String.eqb key "" then acc
      else <[key := trimHeader (chars val)]> acc
  | _ => acc
  end.

Definition parseParams (chunks : list (list ascii)) : gmap string string :=
  foldl addParam ∅ chunks.

(** Modelled from the spec: one top-level entry (section 4.1): a type token,
    carried through without validation, and its parameters. An entry whose
    type token is empty after trimming produces nothing, as the test
    "handles multiple consecutive delimiters" expects. *)
Definition parseAcceptValue (value : list ascii) : option Accept :=
  let (typeToken, chunks) := splitOutsideQuotes semicolon None value in
  let ty := trimHeader typeToken in
  if String.eqb ty "" then None
  else let ps := parseParams chunks in
       Some {| type := ty; params := ps; q := parseQuality (ps !! "q") |}.

(** The entries of a header in their order of appearance. *)
Definition parseEntries (header : string) : list Accept :=
  let (value, values) := splitOutsideQuotes comma None (chars header) in
  omap parseAcceptValue (value :: values).

(** Modelled from the spec: the stable sort by descending [q] (section 4.1,
    output ordering). [insertByQuality e l] puts [e], which appeared before
    every entry of [l], in front of the first entry it does not rank below. *)
Fixpoint insertByQuality (e : Accept) (l : list Accept) : list Accept :=
  match l with
  | [] => [e]
  | x :: l' =>
      if Qle_bool (q x) (q e) then e :: l
      else x :: insertByQuality e l'
  end.

Definition sortByQuality (l : list Accept) : list Accept :=
  foldr insertByQuality [] l.

(** Modelled from the spec: [parseAccept] of [utils.ts] (section 4.1). The
    input is optional: [None] is an absent ([undefined] or [null]) header. *)
Definition parseAccept (acceptHeader : option string) : list Accept :=
  match acceptHeader with
  | None => []
  | Some header =>
      if String.eqb header "" then []
      else sortByQuality (parseEntries header)
  end.

(** ** Options and collaborators ([index.ts], lines 1-59) *)

(** A language candidate: [string | null | undefined | string[]]. *)
Inductive Candidate :=
| CNull
| CUndefined
| CString (s : string)
| CArray (arr : list string).

(** What [getCookie] resolves to: [string | undefined | false]. *)
Inductive CookieValue :=
| CookieFalse
| CookieUndefined
| CookieString (s : string).

(** The value of the [caches] option at run time. Its declared type is
    [CacheType[] | false]; the tests also pass a string, so any other value
    is kept with its truthiness. *)
Inductive CachesValue :=
| CachesFalse
| CachesArray (arr : list string)
| CachesOther (isTruthy : bool).

Record DetectorOptions := {
  order : list string;
  lookupQueryString : string;
  lookupCookie : string;
  lookupFromPathIndex : Z;
  lookupFromHeaderKey : string;
  caches : CachesValue;
  ignoreCase : bool;
  fallbackLanguage : string;
  supportedLanguages : list string;
  convertDetectedLanguage : option (string → Completion string);
  debug : bool
}.

(** [Partial<DetectorOptions>]: [None] is a key the caller left out. *)
Record PartialOptions := {
  p_order : option (list string);
  p_lookupQueryString : option string;
  p_lookupCookie : option string;
  p_lookupFromPathIndex : option Z;
  p_lookupFromHeaderKey : option string;
  p_caches : option CachesValue;
  p_ignoreCase : option bool;
  p_fallbackLanguage : option string;
  p_supportedLanguages : option (list string);
  p_convertDetectedLanguage : option (string → Completion string);
  p_debug : option bool
}.

Definition DEFAULT_OPTIONS : DetectorOptions := {|
  order := ["querystring"; "cookie"; "header"];
  lookupQueryString := "lang";
  lookupCookie := "language";
  lookupFromHeaderKey := "accept-language";
  lookupFromPathIndex := 0;
  caches := CachesArray ["cookie"];
  ignoreCase := true;
  fallbackLanguage := "en";
  supportedLanguages := ["en"];
  convertDetectedLanguage := None;
  debug := false
|}.

(** [{ ...DEFAULT_OPTIONS, ...userOptions }] *)
Definition mergeOptions (d : DetectorOptions) (u : PartialOptions)
    : DetectorOptions := {|
  order := default (order d) (p_order u);
  lookupQueryString := default (lookupQueryString d) (p_lookupQueryString u);
  lookupCookie := default (lookupCookie d) (p_lookupCookie u);
  lookupFromPathIndex :=
    default (lookupFromPathIndex d) (p_lookupFromPathIndex u);
  lookupFromHeaderKey :=
    default (lookupFromHeaderKey d) (p_lookupFromHeaderKey u);
  caches := default (caches d) (p_caches u);
  ignoreCase := default (ignoreCase d) (p_ignoreCase u);
  fallbackLanguage := default (fallbackLanguage d) (p_fallbackLanguage u);
  supportedLanguages :=
    default (supportedLanguages d) (p_supportedLanguages u);
  convertDetectedLanguage :=
    match p_convertDetectedLanguage u with
    | Some hook => Some hook
    | None => convertDetectedLanguage d
    end;
  debug := default (debug d) (p_debug u)
|}.

(** The request and response of Hoa, as far as [index.ts] uses them. Every
    access may throw ([query] and [pathname] are getters, [get] and the two
    cookie operations are calls); the cookie operations are there only when
    the cookie plugin was installed. *)
Record HoaRequest := {
  query : Completion (gmap string Candidate);
  get : string → Completion (option string);
  getCookie : option (string → Completion CookieValue);
  pathname : Completion string
}.

Record HoaResponse := {
  setCookie : option (string → string → Completion unit)
}.

Record HoaContext := {
  req : HoaRequest;
  res : HoaResponse;
  ctx_language : option string   (* [ctx.language] *)
}.

(** ** [normalizeLanguage] (lines 191-217) *)

Definition normalizeLanguage (lang : Candidate) (options : DetectorOptions)
    : option string :=
  match lang with
  | CNull | CUndefined => None
  | CArray _ => None
  | CString lang =>
      if negb (truthy lang) then None
      else
        let caught :=
          normalizedLang ←
            match convertDetectedLanguage options with
            | Some hook => hook (trim lang)
            | None => Normal (trim lang)
            end;
          let compLang :=
            if ignoreCase options then toLowerCase normalizedLang
            else normalizedLang in
          let compSupported :=
            map (fun l => if ignoreCase options then toLowerCase l else l)
                (supportedLanguages options) in
          let matchedLang := find_eq compLang compSupported in
          Normal (if truthy_opt matchedLang
                  then at_index (supportedLanguages options)
                                (indexOf compSupported (default "" matchedLang))
                  else None) in
        match caught with
        | Normal r => r
        | Throw _ => None
        end
  end.
#[global] Arguments normalizeLanguage : simpl never.

(** ** The detectors (lines 81-140) *)

Definition parseAcceptLanguage (header : string) : list (string * Q) :=
  map (fun e => (type e, q e)) (parseAccept (Some header)).

Definition detectFromQuery (ctx : HoaContext) (options : DetectorOptions)
    : Completion (option string) :=
  params ← query (req ctx);
  let query := default CUndefined (params !! lookupQueryString options) in
  mret (normalizeLanguage query options).

Definition detectFromCookie (ctx : HoaContext) (options : DetectorOptions)
    : Completion (option string) :=
  match getCookie (req ctx) with
  | None => Throw (TypeError "ctx.req.getCookie is not a function")
  | Some getCookie =>
      cookie ← getCookie (lookupCookie options);
      match cookie with
      | CookieFalse => mret None
      | CookieUndefined => mret (normalizeLanguage CUndefined options)
      | CookieString s => mret (normalizeLanguage (CString s) options)
      end
  end.

(** The [for ... of] loop of [detectFromHeader]. *)
Fixpoint firstNormalized (languages : list (string * Q))
    (options : DetectorOptions) : option string :=
  match languages with
  | [] => None
  | (lang, _) :: languages' =>
      let normalizedLang := normalizeLanguage (CString lang) options in
      if truthy_opt normalizedLang then normalizedLang
      else firstNormalized languages' options
  end.

Definition detectFromHeader (ctx : HoaContext) (options : DetectorOptions)
    : Completion (option string) :=
  acceptLanguage ← get (req ctx) (lookupFromHeaderKey options);
  if negb (truthy_opt acceptLanguage) then mret None
  else mret (firstNormalized
               (parseAcceptLanguage (default "" acceptLanguage)) options).

Definition detectFromPath (ctx : HoaContext) (options : DetectorOptions)
    : Completion (option string) :=
  path ← pathname (req ctx);
  let pathSegments := List.filter truthy (split "/"%char path) in
  let langSegment := at_index pathSegments (lookupFromPathIndex options) in
  mret (normalizeLanguage
          (match langSegment with
           | Some s => CString s
           | None => CUndefined
           end) options).

Definition Detector : Type :=
  HoaContext → DetectorOptions → Completion (option string).

(** The [detectors] object, its keys in the order of the literal. *)
Definition detectors : list (string * Detector) :=
  [ ("querystring", detectFromQuery);
    ("cookie", detectFromCookie);
    ("header", detectFromHeader);
    ("path", detectFromPath) ].

(** [Object.keys(detectors)] *)
Definition detector_keys : list string := map fst detectors.

(** [detectors[detectorName]] on the object's own keys. Members inherited
    from [Object.prototype] are not modelled: [validateOptions] rejects
    every name that is not an own key before a request is served. *)
Definition detectors_get (detectorName : string) : option Detector :=
  snd <$> List.find (fun kv => String.eqb (fst kv) detectorName) detectors.

(** ** The negotiation pipeline (lines 142-189) *)

(** [await detector(ctx, options)] *)
Definition invoke (detectorName : string) (ctx : HoaContext)
    (options : DetectorOptions) : Eff (option string) :=
  match detectors_get detectorName with
  | Some detector => emit (Call detectorName);; lift (detector ctx options)
  | None => throw (TypeError "detector is not a function")
  end.

(** The [for] loop of [detectLanguage]. [detectedLang] is the variable of
    that name; the boolean tells whether the iteration ended in [break]. *)
Fixpoint detectLoop (ctx : HoaContext) (options : DetectorOptions)
    (names : list string) (detectedLang : option string)
    : Eff (option string) :=
  match names with
  | [] => mret detectedLang
  | detectorName :: names' =>
      '(detectedLang, broke) ← try_catch
        (found ← invoke detectorName ctx options;
         if truthy_opt found
         then when (debug options)
                (emit (ConsoleLog ("Language detected from " +:+ detectorName
                                   +:+ ": " +:+ default "" found)));;
              mret (found, true)
         else mret (found, false))
        (fun error =>
           when (debug options)
             (emit (ConsoleError ("Error in " +:+ detectorName
                                  +:+ " detector:")));;
           mret (detectedLang, false));
      if (broke : bool) then mret detectedLang
      else detectLoop ctx options names' detectedLang
  end.

Definition caches_truthy (c : CachesValue) : bool :=
  match c with
  | CachesFalse => false
  | CachesArray _ => true
  | CachesOther isTruthy => isTruthy
  end.

Definition cacheLanguage (ctx : HoaContext) (language : string)
    (options : DetectorOptions) : Eff unit :=
  match caches options with
  | CachesArray arr =>
      if negb (includes arr "cookie") then mret tt
      else try_catch
             match setCookie (res ctx) with
             | Some setCookie =>
                 emit (SetCookie (lookupCookie options) language);;
                 lift (setCookie (lookupCookie options) language)
             | None => throw (TypeError "ctx.res.setCookie is not a function")
             end
             (fun error =>
                when (debug options)
                  (emit (ConsoleError "Failed to cache language:")))
  | _ => mret tt
  end.

Definition detectLanguage (ctx : HoaContext) (options : DetectorOptions)
    : Eff string :=
  detectedLang ← detectLoop ctx options (order options) None;
  when (negb (truthy_opt detectedLang))
    (when (debug options) (emit (ConsoleError "Language detection failed")));;
  let finalLang :=
    if truthy_opt detectedLang then default "" detectedLang
    else fallbackLanguage options in
  (if truthy_opt detectedLang && caches_truthy (caches options)
   then cacheLanguage ctx finalLang options
   else mret tt);;
  mret finalLang.

(** ** Validation and the middleware (lines 61-79 and 219-237) *)

Definition validateOptions (options : DetectorOptions) : Completion unit :=
  if negb (includes (supportedLanguages options) (fallbackLanguage options))
  then Throw (Error "Fallback language must be included in supported languages")
  else if lookupFromPathIndex options <? 0
  then Throw (Error "Path index must be non-negative")
  else if negb (forallb (fun detector => includes detector_keys detector)
                        (order options))
  then Throw (Error "Invalid detector type in order array")
  else Normal tt.

(** [ctx.throw(status, message)] of Hoa raises an HTTP error. *)
Definition ctx_throw (status : Z) (message : string) : Completion unit :=
  Throw (HttpError status message).

Definition validateCookiePlugin (ctx : HoaContext) : Completion unit :=
  if negb (bool_decide (is_Some (getCookie (req ctx))))
     || negb (bool_decide (is_Some (setCookie (res ctx))))
  then ctx_throw 500 "Cookie plugin (eg: @hoajs/cookie) is required"
  else Normal tt.

Definition HoaMiddleware : Type :=
  HoaContext → (HoaContext → Eff unit) → Eff unit.

Definition languageMiddleware (options : DetectorOptions) : HoaMiddleware :=
  fun ctx next =>
    lift (validateCookiePlugin ctx);;
    lang ← detectLanguage ctx options;
    next {| req := req ctx; res := res ctx; ctx_language := Some lang |}.

Definition language (userOptions : PartialOptions) : Completion HoaMiddleware :=
  let options := mergeOptions DEFAULT_OPTIONS userOptions in
  validateOptions options;;
  mret (languageMiddleware options).

(** ** Vocabulary of the statements *)

(** *** On the parser *)


(** [a] occurs in [b] as a run of consecutive characters. *)
Definition infix (a b : list ascii) : Prop := ∃ pre post, b = pre ++ a ++ post.

(** [a] does not rank below [b]. *)
Definition ranks (a b : Accept) : Prop := (q b <= q a)%Q.

(** The entries of quality [r], in the order they have in [l]. *)
Definition ofQuality (r : Q) (l : list Accept) : list Accept :=
  List.filter (fun e => Qeq_bool (q e) r) l.

(** [s] between double quotes. *)
Definition quoted (s : string) : string := str (dquote :: chars s ++ [dquote]).

(** *** On [normalizeLanguage] *)

(** The two sides of the comparison in [normalizeLanguage]. *)
Definition foldCase (options : DetectorOptions) (l : string) : string :=
  if ignoreCase options then toLowerCase l else l.

(** The trimmed candidate after the optional conversion hook. *)
Definition converted (options : DetectorOptions) (s : string)
    : Completion string :=
  match convertDetectedLanguage options with
  | Some hook => hook (trim s)
  | None => Normal (trim s)
  end.

(** *** On the pipeline *)

Definition calls (t : list Event) : list string :=
  omap (fun ev => match ev with Call n => Some n | _ => None end) t.

Definition cookieWrites (t : list Event) : list (string * string) :=
  omap (fun ev => match ev with SetCookie k v => Some (k, v) | _ => None end) t.

(** The strategy called [name], once invoked, raises an error or returns
    no language. *)
Definition yieldsNothing (ctx : HoaContext) (options : DetectorOptions)
    (name : string) : Prop :=
  match (invoke name ctx options).2 with
  | Throw _ => True
  | Normal r => truthy_opt r = false
  end.

(** The strategy called [name], once invoked, returns the language [l]. *)
Definition yields (ctx : HoaContext) (options : DetectorOptions)
    (name : string) (l : string) : Prop :=
  (invoke name ctx options).2 = Normal (Some l).

(** ["cookie"] is in the array, and [caches] is an array. *)
Definition cachesCookie (c : CachesValue) : bool :=
  match c with
  | CachesArray arr => bool_decide ("cookie" ∈ arr)
  | _ => false
  end.

(** *** Sample configurations and requests *)

(** [{ order, caches, supportedLanguages, fallbackLanguage }], each key
    optional. *)
Definition userOptions (order : option (list string))
    (caches : option CachesValue) (supportedLanguages : option (list string))
    (fallbackLanguage : option string) : PartialOptions := {|
  p_order := order; p_lookupQueryString := None; p_lookupCookie := None;
  p_lookupFromPathIndex := None; p_lookupFromHeaderKey := None;
  p_caches := caches; p_ignoreCase := None;
  p_fallbackLanguage := fallbackLanguage;
  p_supportedLanguages := supportedLanguages;
  p_convertDetectedLanguage := None; p_debug := None
|}.

Definition noOptions : PartialOptions := userOptions None None None None.

(** [{ supportedLanguages: ['en', 'fr', 'es'], fallbackLanguage: 'en' }] *)
Definition threeLanguages : PartialOptions :=
  userOptions None None (Some ["en"; "fr"; "es"]) (Some "en").

(** [{ supportedLanguages: ['en', 'fr'], fallbackLanguage: 'de' }] *)
Definition unsupportedFallback : PartialOptions :=
  userOptions None None (Some ["en"; "fr"]) (Some "de").

(** [{ order: ['querystring'], caches: false, ... }]: no cookie strategy and
    no cookie cache. *)
Definition cookieFree : PartialOptions :=
  userOptions (Some ["querystring"]) (Some CachesFalse)
              (Some ["en"; "fr"; "es"]) (Some "en").

(** A conversion hook that maps the empty string to ['en']:
    [(lang) => lang || 'en']. *)
Definition orEnglish : PartialOptions := {|
  p_order := None; p_lookupQueryString := None; p_lookupCookie := None;
  p_lookupFromPathIndex := None; p_lookupFromHeaderKey := None;
  p_caches := None; p_ignoreCase := None; p_fallbackLanguage := None;
  p_supportedLanguages := None;
  p_convertDetectedLanguage :=
    Some (fun lang => Normal (if truthy lang then lang else "en"));
  p_debug := None
|}.

(** A request with the given query parameter [lang], cookie [language] and
    [accept-language] header, on a response whose cookie write fails. *)
Definition request (lang cookie header : option string) : HoaContext := {|
  req := {|
    query := Normal (match lang with
                     | Some l => {["lang" := CString l]}
                     | None => ∅
                     end);
    get := fun _ => Normal header;
    getCookie := Some (fun _ => Normal (match cookie with
                                        | Some c => CookieString c
                                        | None => CookieUndefined
                                        end));
    pathname := Normal "/"
  |};
  res := {| setCookie := Some (fun _ _ => Throw (Error "Cache failed")) |};
  ctx_language := None
|}.

(** The same request where the cookie plugin was not installed. *)
Definition requestWithoutCookiePlugin (lang : option string) : HoaContext := {|
  req := {|
    query := Normal (match lang with
                     | Some l => {["lang" := CString l]}
                     | None => ∅
                     end);
    get := fun _ => Normal None;
    getCookie := None;
    pathname := Normal "/"
  |};
  res := {| setCookie := None |};
  ctx_language := None
|}.


(** *** Reading a test *)

(** An entry as the tests compare it. *)
Definition entry (e : Accept) : string * list (string * string) * Q :=
  (type e, map_to_list (params e), q e).

Definition tab : ascii := "009"%char.
Definition newline : ascii := "010"%char.

(** What [ctx.language] becomes on a request, and the cookies written. *)
Definition run (userOptions : PartialOptions) (ctx : HoaContext)
    : Completion string * list (string * string) :=
  let r := detectLanguage ctx (mergeOptions DEFAULT_OPTIONS userOptions) in
  (r.2, cookieWrites r.1).

(** A header of the test "handles potential injection patterns". *)
Definition scriptHeader : string :=
  "text/html" +:+ str [dquote] +:+ "><script>alert(1)</script>".

(** *** Further vocabulary *)

(** The path [/s1/s2/.../sn] of the segments [s1 ... sn]. *)
Definition joinPath (segments : list string) : string :=
  foldr (fun segment rest => String "/"%char (segment +:+ rest)) "" segments.

Definition slashFree (s : string) : Prop := "/"%char ∉ chars s.

(** [{ ...options, debug }] *)
Definition withDebug (debug : bool) (options : DetectorOptions)
    : DetectorOptions := {|
  order := order options;
  lookupQueryString := lookupQueryString options;
  lookupCookie := lookupCookie options;
  lookupFromPathIndex := lookupFromPathIndex options;
  lookupFromHeaderKey := lookupFromHeaderKey options;
  caches := caches options;
  ignoreCase := ignoreCase options;
  fallbackLanguage := fallbackLanguage options;
  supportedLanguages := supportedLanguages options;
  convertDetectedLanguage := convertDetectedLanguage options;
  debug := debug
|}.

(** The messages sent to the console. *)
Definition console (t : list Event) : list string :=
  omap (fun ev => match ev with
                  | ConsoleLog m | ConsoleError m => Some m
                  | _ => None
                  end) t.

(** The context the next handler sees: [ctx.language = lang]. *)
Definition withLanguage (ctx : HoaContext) (lang : string) : HoaContext :=
  {| req := req ctx; res := res ctx; ctx_language := Some lang |}.


(** A request on the given path, without the cookie plugin. *)
Definition pathRequest (path : string) : HoaContext := {|
  req := {| query := Normal ∅; get := fun _ => Normal None;
            getCookie := None; pathname := Normal path |};
  res := {| setCookie := None |};
  ctx_language := None
|}.

(** [l] does not start with a character of [ws]. *)
Definition startsClean (ws : ascii → bool) (l : list ascii) : Prop :=
  match l with
  | [] => True
  | c :: _ => ws c = false
  end.

(** * Proofs *)

(** ** Strings and arrays *)

Lemma str_chars s : str (chars s) = s.
Proof. apply String.string_of_list_ascii_of_string. Qed.

Lemma chars_str l : chars (str l) = l.
Proof. apply String.list_ascii_of_string_of_list_ascii. Qed.

Lemma str_nil_inv l : str l = "" → l = [].
Proof. by destruct l. Qed.

Lemma chars_nil_inv s : chars s = [] → s = "".
Proof. by destruct s. Qed.

Lemma truthy_true s : truthy s = true ↔ s ≠ "".
Proof.
  unfold truthy. rewrite negb_true_iff, String.eqb_neq. done.
Qed.

Lemma truthy_false s : truthy s = false ↔ s = "".
Proof.
  unfold truthy. rewrite negb_false_iff, String.eqb_eq. done.
Qed.

Lemma toLowerCase_empty s : toLowerCase s = "" ↔ s = "".
Proof.
  unfold toLowerCase. split.
  - intros H%str_nil_inv. apply chars_nil_inv.
    by destruct (chars s).
  - by intros ->.
Qed.

Lemma trim_whitespace_only s :
  forallb isWhiteSpace (chars s) = true → trim s = "".
Proof.
  unfold trim, trimBy. intros H.
  assert (Hd : dropWhileStart isWhiteSpace (chars s) = []).
  { induction (chars s) as [|c l IH]; [done|].
    simpl in *. apply andb_true_iff in H as [-> H]. auto. }
  by rewrite Hd.
Qed.

Lemma find_eq_Some x arr m : find_eq x arr = Some m → m = x ∧ x ∈ arr.
Proof.
  unfold find_eq. intros H. apply find_some in H as [Hin Heq].
  apply String.eqb_eq in Heq. subst. split; [done|]. by apply list_elem_of_In.
Qed.

Lemma find_eq_None x arr : find_eq x arr = None → x ∉ arr.
Proof.
  unfold find_eq. intros H Hin. apply list_elem_of_In in Hin.
  pose proof (find_none _ _ H _ Hin) as Hne. simpl in Hne.
  by rewrite String.eqb_refl in Hne.
Qed.

Lemma find_eq_elem x arr : x ∈ arr → find_eq x arr = Some x.
Proof.
  intros Hin. destruct (find_eq x arr) as [m|] eqn:E.
  - by apply find_eq_Some in E as [-> _].
  - by apply find_eq_None in E.
Qed.

(** [indexOf] on a mapped array finds the first element whose image is [x]. *)
Lemma indexOf_first (f : string → string) pre l post x :
  f l = x → (∀ y, y ∈ pre → f y ≠ x) →
  at_index (pre ++ l :: post) (indexOf (map f (pre ++ l :: post)) x) = Some l
  ∧ 0 <= indexOf (map f (pre ++ l :: post)) x.
Proof.
  intros Hl. induction pre as [|y pre IH]; intros Hpre; simpl.
  - rewrite Hl, String.eqb_refl. done.
  - assert (f y ≠ x) as Hy by (apply Hpre; left).
    apply String.eqb_neq in Hy. rewrite Hy.
    destruct IH as [IH1 IH2]; [intros; apply Hpre; by right|].
    destruct (Z.ltb_spec (indexOf (map f (pre ++ l :: post)) x) 0); [lia|].
    split; [|lia].
    unfold at_index in *.
    destruct (Z.ltb_spec (indexOf (map f (pre ++ l :: post)) x + 1) 0); [lia|].
    destruct (Z.ltb_spec (indexOf (map f (pre ++ l :: post)) x) 0); [lia|].
    rewrite Z2Nat.inj_add by lia. rewrite Nat.add_comm. simpl. done.
Qed.

Lemma elem_of_map_first (f : string → string) (arr : list string) x :
  x ∈ map f arr →
  ∃ pre l post, arr = pre ++ l :: post ∧ f l = x ∧ ∀ y, y ∈ pre → f y ≠ x.
Proof.
  induction arr as [|y arr IH]; simpl; intros Hin.
  - by apply elem_of_nil in Hin.
  - destruct (decide (f y = x)) as [Hy|Hy].
    + exists [], y, arr. split; [done|]. split; [done|]. intros ? []%elem_of_nil.
    + apply elem_of_cons in Hin as [Hin|Hin]; [congruence|].
      destruct (IH Hin) as (pre & l & post & -> & Hl & Hpre).
      exists (y :: pre), l, post. split; [done|]. split; [done|].
      intros z [->|Hz]%elem_of_cons; auto.
Qed.

(** ** [normalizeLanguage] *)

Lemma foldCase_empty options l : foldCase options l = "" ↔ l = "".
Proof.
  unfold foldCase. destruct (ignoreCase options); [apply toLowerCase_empty|done].
Qed.

Lemma normalizeLanguage_string options s :
  s ≠ "" →
  normalizeLanguage (CString s) options =
    match converted options s with
    | Throw _ => None
    | Normal n =>
        let compSupported := map (foldCase options) (supportedLanguages options) in
        match find_eq (foldCase options n) compSupported with
        | Some m =>
            if truthy m
            then at_index (supportedLanguages options) (indexOf compSupported m)
            else None
        | None => None
        end
    end.
Proof.
  intros Hs%truthy_true. unfold normalizeLanguage, converted. rewrite Hs. simpl.
  destruct (convertDetectedLanguage options) as [hook|]; simpl.
  - destruct (hook (trim s)) as [n|e]; simpl; [|done].
    unfold foldCase. by destruct (find_eq _ _).
  - unfold foldCase. by destruct (find_eq _ _).
Qed.

Lemma normalizeLanguage_match options s n pre l post :
  s ≠ "" → converted options s = Normal n →
  foldCase options n ≠ "" →
  supportedLanguages options = pre ++ l :: post →
  foldCase options l = foldCase options n →
  (∀ y, y ∈ pre → foldCase options y ≠ foldCase options n) →
  normalizeLanguage (CString s) options = Some l.
Proof.
  intros Hs Hn Hne Hsup Hl Hpre.
  rewrite normalizeLanguage_string, Hn by done. simpl.
  rewrite find_eq_elem.
  - apply truthy_true in Hne. rewrite Hne, Hsup.
    by apply indexOf_first.
  - rewrite Hsup, <- Hl. apply list_elem_of_fmap. exists l. split; [done|].
    apply elem_of_app. right. left.
Qed.

Lemma normalizeLanguage_no_match options s n :
  s ≠ "" → converted options s = Normal n →
  (∀ l, l ∈ supportedLanguages options →
        foldCase options l ≠ foldCase options n) →
  normalizeLanguage (CString s) options = None.
Proof.
  intros Hs Hn Hno. rewrite normalizeLanguage_string, Hn by done. simpl.
  destruct (find_eq _ _) as [m|] eqn:E; [|done].
  apply find_eq_Some in E as [_ Hin].
  apply list_elem_of_fmap in Hin as (l & Hl & Hin).
  by destruct (Hno l Hin).
Qed.

Lemma normalizeLanguage_empty_fold options s n :
  s ≠ "" → converted options s = Normal n → foldCase options n = "" →
  normalizeLanguage (CString s) options = None.
Proof.
  intros Hs Hn He. rewrite normalizeLanguage_string, Hn by done. simpl.
  destruct (find_eq _ _) as [m|] eqn:E; [|done].
  apply find_eq_Some in E as [-> _]. by rewrite He.
Qed.

(** Whatever [normalizeLanguage] returns is a non-empty member of the
    supported set. *)
Lemma normalizeLanguage_supported options lang l :
  normalizeLanguage lang options = Some l →
  l ∈ supportedLanguages options ∧ l ≠ "".
Proof.
  destruct lang as [| |s|arr]; try done.
  destruct (decide (s = "")) as [->|Hs]; [done|].
  rewrite normalizeLanguage_string by done.
  destruct (converted options s) as [n|e]; [|done]. simpl.
  destruct (find_eq _ _) as [m|] eqn:E; [|done].
  apply find_eq_Some in E as [-> Hin].
  destruct (truthy _) eqn:Ht; [|done]. apply truthy_true in Ht.
  apply elem_of_map_first in Hin as (pre & l' & post & Hsup & Hl & Hpre).
  rewrite Hsup. destruct (indexOf_first (foldCase options) pre l' post _ Hl Hpre) as [-> _].
  intros [= <-]. split.
  - apply elem_of_app. right. left.
  - intros ->. apply Ht. rewrite <- Hl. by apply foldCase_empty.
Qed.

(** ** The pipeline *)

Lemma calls_app t1 t2 : calls (t1 ++ t2) = calls t1 ++ calls t2.
Proof. apply omap_app. Qed.

Lemma cookieWrites_app t1 t2 :
  cookieWrites (t1 ++ t2) = cookieWrites t1 ++ cookieWrites t2.
Proof. apply omap_app. Qed.

Ltac unfold_eff :=
  unfold mbind, Eff_bind, mret, Eff_ret, try_catch, emit, lift, throw, when
    in *; simpl in *.

Lemma includes_elem arr x : includes arr x = true ↔ x ∈ arr.
Proof.
  unfold includes. rewrite existsb_exists. split.
  - intros (y & Hin & ->%String.eqb_eq). by apply list_elem_of_In.
  - intros Hin. exists x. split; [by apply list_elem_of_In|apply String.eqb_refl].
Qed.

Lemma detectors_get_eq name :
  detectors_get name =
    if String.eqb "querystring" name then Some detectFromQuery
    else if String.eqb "cookie" name then Some detectFromCookie
    else if String.eqb "header" name then Some detectFromHeader
    else if String.eqb "path" name then Some detectFromPath
    else None.
Proof.
  unfold detectors_get, detectors. cbn [List.find fst].
  by repeat destruct (String.eqb _ name).
Qed.

Lemma detectors_get_keys name :
  is_Some (detectors_get name) ↔ name ∈ detector_keys.
Proof.
  rewrite detectors_get_eq.
  change detector_keys with ["querystring"; "cookie"; "header"; "path"].
  split.
  - repeat match goal with
           | |- context [String.eqb ?k name] =>
               destruct (String.eqb_spec k name) as [<-|_];
               [intros _; rewrite !elem_of_cons; tauto|]
           end.
    by intros [? ?].
  - intros Hin.
    repeat (apply elem_of_cons in Hin as [->|Hin]; [by eexists|]).
    by apply elem_of_nil in Hin.
Qed.

(** Every detector returns what [normalizeLanguage] returned. *)
Lemma firstNormalized_supported languages options l :
  firstNormalized languages options = Some l →
  l ∈ supportedLanguages options ∧ l ≠ "".
Proof.
  induction languages as [|[lang w] languages IH]; cbn [firstNormalized];
    [done|].
  destruct (truthy_opt _); [|done].
  apply normalizeLanguage_supported.
Qed.

Lemma detector_supported name (detector : Detector) ctx options l :
  detectors_get name = Some detector →
  detector ctx options = Normal (Some l) →
  l ∈ supportedLanguages options ∧ l ≠ "".
Proof.
  rewrite detectors_get_eq.
  repeat (destruct (String.eqb _ name); [intros [= <-]|]); try done.
  - unfold detectFromQuery. destruct (query _); simpl; [|done].
    intros [= H]. by apply normalizeLanguage_supported in H.
  - unfold detectFromCookie. destruct (getCookie _) as [f|]; [|done].
    destruct (f _) as [[]|]; simpl; try done.
    intros [= H]. by apply normalizeLanguage_supported in H.
  - unfold detectFromHeader. destruct (get _ _) as [h|]; simpl; [|done].
    destruct (truthy_opt h); simpl; [|done].
    intros [= H]. by apply firstNormalized_supported in H.
  - unfold detectFromPath. destruct (pathname _); simpl; [|done].
    intros [= H]. by apply normalizeLanguage_supported in H.
Qed.

Lemma Eff_bind_Normal {A B} (t : list Event) (a : A) (f : A → Eff B) :
  (t, Normal a) ≫= f = (t ++ (f a).1, (f a).2).
Proof. done. Qed.

Section Pipeline.
Context (ctx : HoaContext) (options : DetectorOptions).

Lemma invoke_known name (detector : Detector) :
  detectors_get name = Some detector →
  invoke name ctx options = ([Call name], detector ctx options).
Proof.
  intros Hd. unfold invoke. rewrite Hd. unfold_eff.
  by destruct (detector ctx options).
Qed.

Lemma invoke_unknown name :
  detectors_get name = None →
  invoke name ctx options =
    ([], Throw (TypeError "detector is not a function")).
Proof. intros Hd. unfold invoke. by rewrite Hd. Qed.

Lemma yields_supported name l :
  yields ctx options name l → l ∈ supportedLanguages options ∧ l ≠ "".
Proof.
  unfold yields. destruct (detectors_get name) as [d|] eqn:Hd.
  - rewrite (invoke_known _ _ Hd). simpl. by eapply detector_supported.
  - by rewrite (invoke_unknown _ Hd).
Qed.

Lemma yields_known name l :
  yields ctx options name l → name ∈ detector_keys.
Proof.
  unfold yields. intros H. apply detectors_get_keys.
  destruct (detectors_get name) as [d|] eqn:Hd; [done|].
  by rewrite (invoke_unknown _ Hd) in H.
Qed.

(** *** One iteration of the loop *)

Lemma detectLoop_cons name names d0 :
  detectLoop ctx options (name :: names) d0 =
    '(detectedLang, broke) ← try_catch
        (found ← invoke name ctx options;
         if truthy_opt found
         then when (debug options)
                (emit (ConsoleLog ("Language detected from " +:+ name
                                   +:+ ": " +:+ default "" found)));;
              mret (found, true)
         else mret (found, false))
        (fun error =>
           when (debug options)
             (emit (ConsoleError ("Error in " +:+ name +:+ " detector:")));;
           mret (d0, false));
      if (broke : bool) then mret detectedLang
      else detectLoop ctx options names detectedLang.
Proof. done. Qed.

Lemma detectLoop_cons_found name names d0 l :
  yields ctx options name l →
  ∃ t, detectLoop ctx options (name :: names) d0 = (t, Normal (Some l))
       ∧ calls t = [name] ∧ cookieWrites t = [].
Proof.
  intros H. destruct (yields_supported _ _ H) as [_ Hl%truthy_true].
  pose proof (yields_known _ _ H) as [d Hd]%detectors_get_keys.
  unfold yields in H. rewrite (invoke_known _ _ Hd) in H. simpl in H.
  rewrite detectLoop_cons, (invoke_known _ _ Hd), H.
  unfold_eff. rewrite Hl.
  destruct (debug options); simpl; eauto.
Qed.

Lemma detectLoop_cons_nothing name names d0 :
  yieldsNothing ctx options name → truthy_opt d0 = false →
  ∃ t d1, truthy_opt d1 = false
    ∧ calls t = (if bool_decide (name ∈ detector_keys) then [name] else [])
    ∧ cookieWrites t = []
    ∧ detectLoop ctx options (name :: names) d0 =
        (t ++ (detectLoop ctx options names d1).1,
         (detectLoop ctx options names d1).2).
Proof.
  intros Hc Hd0. unfold yieldsNothing in Hc. rewrite detectLoop_cons.
  destruct (detectors_get name) as [d|] eqn:Hd.
  - rewrite bool_decide_eq_true_2 by (apply detectors_get_keys; eauto).
    rewrite (invoke_known _ _ Hd) in *. simpl in Hc.
    destruct (d ctx options) as [r|e]; unfold_eff.
    + rewrite Hc. simpl. exists [Call name], r.
      destruct (detectLoop ctx options names r) as [t' [?|?]]; simpl; done.
    + destruct (debug options); simpl.
      * exists [Call name;
                ConsoleError ("Error in " +:+ name +:+ " detector:")], d0.
        destruct (detectLoop ctx options names d0) as [t' [?|?]]; simpl; done.
      * exists [Call name], d0.
        destruct (detectLoop ctx options names d0) as [t' [?|?]]; simpl; done.
  - rewrite bool_decide_eq_false_2
      by (rewrite <- detectors_get_keys, Hd; by intros [? ?]).
    rewrite (invoke_unknown _ Hd). unfold_eff.
    destruct (debug options); simpl.
    + exists [ConsoleError ("Error in " +:+ name +:+ " detector:")], d0.
      destruct (detectLoop ctx options names d0) as [t' [?|?]]; simpl; done.
    + exists [], d0.
      destruct (detectLoop ctx options names d0) as [t' [?|?]]; simpl; done.
Qed.

Lemma strategy_cases name :
  yieldsNothing ctx options name ∨ ∃ l, yields ctx options name l.
Proof.
  unfold yieldsNothing, yields.
  destruct (invoke name ctx options).2 as [[l|]|e]; eauto.
Qed.

(** *** The whole loop *)

Lemma detectLoop_short_circuit pre name post l d0 :
  (∀ n, n ∈ pre → yieldsNothing ctx options n) →
  truthy_opt d0 = false →
  yields ctx options name l →
  ∃ t, detectLoop ctx options (pre ++ name :: post) d0 = (t, Normal (Some l))
       ∧ calls t = filter (.∈ detector_keys) pre ++ [name]
       ∧ cookieWrites t = [].
Proof.
  intros Hpre Hd0 Hname. revert d0 Hd0.
  induction pre as [|n pre IH]; intros d0 Hd0.
  - by apply detectLoop_cons_found.
  - destruct (detectLoop_cons_nothing n (pre ++ name :: post) d0)
      as (t1 & d1 & Hd1 & Hc1 & Hw1 & Heq); [apply Hpre; left|done|].
    destruct (IH (fun m Hm => Hpre m (list_elem_of_further _ _ _ Hm)) d1 Hd1)
      as (t2 & Heq2 & Hc2 & Hw2).
    exists (t1 ++ t2). rewrite <- app_comm_cons, Heq, Heq2. simpl.
    rewrite calls_app, cookieWrites_app, Hc1, Hc2, Hw1, Hw2.
    split; [done|]. split; [|done].
    rewrite filter_cons. unfold bool_decide. by destruct (decide_rel _ _ _).
Qed.

Lemma detectLoop_exhausted names d0 :
  (∀ n, n ∈ names → yieldsNothing ctx options n) →
  truthy_opt d0 = false →
  ∃ t d, detectLoop ctx options names d0 = (t, Normal d)
         ∧ truthy_opt d = false
         ∧ calls t = filter (.∈ detector_keys) names
         ∧ cookieWrites t = [].
Proof.
  revert d0. induction names as [|n names IH]; intros d0 Hall Hd0.
  - by exists [], d0.
  - destruct (detectLoop_cons_nothing n names d0)
      as (t1 & d1 & Hd1 & Hc1 & Hw1 & Heq); [apply Hall; left|done|].
    destruct (IH d1 (fun m Hm => Hall m (list_elem_of_further _ _ _ Hm)) Hd1)
      as (t2 & d & Heq2 & Hd & Hc2 & Hw2).
    exists (t1 ++ t2), d. rewrite Heq, Heq2. simpl.
    rewrite calls_app, cookieWrites_app, Hc1, Hc2, Hw1, Hw2.
    split; [done|]. split; [done|]. split; [|done].
    rewrite filter_cons. unfold bool_decide. by destruct (decide_rel _ _ _).
Qed.

(** The loop always completes, writes no cookie, and what it detects is a
    stored supported language. *)
Lemma detectLoop_total names d0 :
  truthy_opt d0 = false →
  ∃ t d, detectLoop ctx options names d0 = (t, Normal d)
         ∧ cookieWrites t = []
         ∧ (truthy_opt d = true →
            ∃ l, d = Some l ∧ l ∈ supportedLanguages options).
Proof.
  revert d0. induction names as [|n names IH]; intros d0 Hd0.
  - exists [], d0. split; [done|]. split; [done|]. congruence.
  - destruct (strategy_cases n) as [Hn|[l Hl]].
    + destruct (detectLoop_cons_nothing n names d0 Hn Hd0)
        as (t1 & d1 & Hd1 & _ & Hw1 & Heq).
      destruct (IH d1 Hd1) as (t2 & d & Heq2 & Hw2 & Hd).
      exists (t1 ++ t2), d. rewrite Heq, Heq2. simpl.
      by rewrite cookieWrites_app, Hw1, Hw2.
    + destruct (detectLoop_cons_found n names d0 l Hl)
        as (t & Heq & _ & Hw).
      exists t, (Some l). split; [done|]. split; [done|].
      intros _. exists l. split; [done|].
      by apply yields_supported in Hl as [? _].
Qed.

(** *** The cache write and the final result *)

Lemma cacheLanguage_spec lang :
  ∃ t, cacheLanguage ctx lang options = (t, Normal tt)
       ∧ calls t = []
       ∧ cookieWrites t =
           if cachesCookie (caches options)
              && bool_decide (is_Some (setCookie (res ctx)))
           then [(lookupCookie options, lang)] else [].
Proof.
  unfold cacheLanguage, cachesCookie.
  destruct (caches options) as [|arr|b]; try by (exists []).
  destruct (includes arr "cookie") eqn:Hi; simpl.
  - rewrite bool_decide_eq_true_2 by (by apply includes_elem). simpl.
    destruct (setCookie (res ctx)) as [f|]; unfold_eff.
    + destruct (f (lookupCookie options) lang) as [[]|e]; simpl.
      * by eexists.
      * destruct (debug options); by eexists.
    + destruct (debug options); by eexists.
  - rewrite bool_decide_eq_false_2; [by exists []|].
    intros H%includes_elem. congruence.
Qed.

Lemma detectLanguage_spec t d :
  detectLoop ctx options (order options) None = (t, Normal d) →
  ∃ t', detectLanguage ctx options =
          (t ++ t', Normal (if truthy_opt d then default "" d
                            else fallbackLanguage options))
        ∧ calls t' = []
        ∧ cookieWrites t' =
            if truthy_opt d && cachesCookie (caches options)
               && bool_decide (is_Some (setCookie (res ctx)))
            then [(lookupCookie options, default "" d)] else [].
Proof.
  intros Hloop. unfold detectLanguage.
  rewrite Hloop, Eff_bind_Normal. cbv beta zeta.
  destruct (truthy_opt d) eqn:Hd; cbn [negb andb].
  - destruct (cacheLanguage_spec (default "" d))
      as (tc & Hc & Hcalls & Hw).
    destruct (caches_truthy (caches options)) eqn:Hct.
    + exists tc. rewrite Hc. unfold_eff. by rewrite !app_nil_r.
    + exists []. unfold_eff.
      split; [done|]. split; [done|].
      by destruct (caches options) as [|arr|[]].
  - unfold_eff.
    destruct (debug options); simpl; eexists; (split; [done|]); done.
Qed.

End Pipeline.

(** *** Validation *)

Lemma validateOptions_Normal options :
  validateOptions options = Normal tt ↔
    fallbackLanguage options ∈ supportedLanguages options
    ∧ 0 <= lookupFromPathIndex options
    ∧ ∀ n, n ∈ order options → n ∈ detector_keys.
Proof.
  unfold validateOptions.
  destruct (includes _ _) eqn:Hf; cbn [negb].
  - apply includes_elem in Hf.
    destruct (Z.ltb_spec (lookupFromPathIndex options) 0) as [Hi|Hi].
    + split; [done|]. lia.
    + destruct (forallb _ _) eqn:Ho; cbn [negb].
      * split; [|done]. intros _. split; [done|]. split; [done|].
        intros n Hn%list_elem_of_In.
        rewrite forallb_forall in Ho. by apply includes_elem, Ho.
      * split; [done|]. intros (_ & _ & Hall).
        assert (forallb (fun d => includes detector_keys d) (order options)
                = true) as Ho'; [|congruence].
        apply forallb_forall. intros n Hn%list_elem_of_In.
        by apply includes_elem, Hall.
  - split; [done|]. intros [Hin _]. apply includes_elem in Hin. congruence.
Qed.

Lemma validateOptions_cases options :
  validateOptions options = Normal tt
  ∨ ∃ message, validateOptions options = Throw (Error message).
Proof.
  unfold validateOptions.
  repeat match goal with |- context [if ?b then _ else _] => destruct b end;
    eauto.
Qed.

Lemma filter_known (names : list string) :
  (∀ n, n ∈ names → n ∈ detector_keys) →
  filter (.∈ detector_keys) names = names.
Proof.
  induction names as [|n names IH]; intros Hall; [done|].
  rewrite filter_cons_True by (apply Hall; left).
  f_equal. apply IH. intros m Hm. apply Hall. by right.
Qed.

(** *** The detectors read the request only *)

Lemma invoke_req_only ctx ctx' options name :
  req ctx = req ctx' → invoke name ctx options = invoke name ctx' options.
Proof.
  intros Hreq. unfold invoke. rewrite detectors_get_eq.
  repeat (destruct (String.eqb _ name); [f_equal; f_equal|]); try done.
  - unfold detectFromQuery. by rewrite Hreq.
  - unfold detectFromCookie. by rewrite Hreq.
  - unfold detectFromHeader. by rewrite Hreq.
  - unfold detectFromPath. by rewrite Hreq.
Qed.

Lemma detectLoop_req_only ctx ctx' options names d0 :
  req ctx = req ctx' →
  detectLoop ctx options names d0 = detectLoop ctx' options names d0.
Proof.
  intros Hreq. revert d0. induction names as [|n names IH]; intros d0; [done|].
  rewrite !detectLoop_cons, (invoke_req_only ctx ctx' options n Hreq).
  set (x := try_catch _ _).
  destruct x as [t [[a [|]]|e]]; unfold mbind, Eff_bind; simpl; try done.
  by rewrite IH.
Qed.

(** ** The header-value parser *)

(** *** Quality *)








(** *** The sort *)

Lemma insertByQuality_perm e l : insertByQuality e l ≡ₚ e :: l.
Proof.
  induction l as [|x l IH]; simpl; [done|].
  destruct (Qle_bool (q x) (q e)); [done|].
  rewrite IH. apply Permutation_swap.
Qed.

Lemma sortByQuality_perm l : sortByQuality l ≡ₚ l.
Proof.
  induction l as [|e l IH]; simpl; [done|].
  by rewrite insertByQuality_perm, IH.
Qed.

Lemma insertByQuality_sorted e l :
  StronglySorted ranks l → StronglySorted ranks (insertByQuality e l).
Proof.
  induction 1 as [|x l Hl IH Hx]; simpl.
  - repeat constructor.
  - destruct (Qle_bool (q x) (q e)) eqn:Hle.
    + apply Qle_bool_iff in Hle. constructor; [by constructor|].
      constructor; [done|].
      eapply Forall_impl; [exact Hx|]. intros y Hy. unfold ranks in *.
      by apply Qle_trans with (q x).
    + constructor; [done|].
      rewrite insertByQuality_perm. constructor; [|done].
      unfold ranks. apply Qlt_le_weak, Qnot_le_lt.
      intros H%Qle_bool_iff. congruence.
Qed.

Lemma sortByQuality_sorted l : StronglySorted ranks (sortByQuality l).
Proof.
  induction l as [|e l IH]; simpl; [constructor|].
  by apply insertByQuality_sorted.
Qed.

Lemma insertByQuality_stable r e l :
  ofQuality r (insertByQuality e l) = ofQuality r (e :: l).
Proof.
  induction l as [|x l IH]; [done|]. simpl.
  destruct (Qle_bool (q x) (q e)) eqn:Hle; [done|].
  unfold ofQuality in *. simpl in *.
  destruct (Qeq_bool (q x) r) eqn:Hx.
  - rewrite IH. destruct (Qeq_bool (q e) r) eqn:He; [|done].
    apply Qeq_bool_iff in Hx, He.
    assert (q x <= q e)%Q as H%Qle_bool_iff; [|congruence].
    rewrite Hx, He. apply Qle_refl.
  - by rewrite IH.
Qed.

Lemma sortByQuality_stable r l :
  ofQuality r (sortByQuality l) = ofQuality r l.
Proof.
  induction l as [|e l IH]; [done|]. simpl.
  rewrite insertByQuality_stable. unfold ofQuality in *. simpl.
  by rewrite IH.
Qed.

Lemma parseAccept_sorted header :
  parseAccept (Some header) = sortByQuality (parseEntries header).
Proof.
  unfold parseAccept. by destruct (String.eqb_spec header "") as [->|_].
Qed.

(** *** The scan *)

Lemma infix_refl a : infix a a.
Proof. exists [], []. by rewrite app_nil_r. Qed.






Lemma dropWhileStart_suffix ws l : ∃ pre, l = pre ++ dropWhileStart ws l.
Proof.
  induction l as [|c l [pre IH]]; simpl; [by exists []|].
  destruct (ws c); [|by exists []].
  exists (c :: pre). simpl. by rewrite <- IH.
Qed.

Lemma trimBy_infix ws l : infix (trimBy ws l) l.
Proof.
  unfold trimBy.
  destruct (dropWhileStart_suffix ws l) as [pre Hpre].
  destruct (dropWhileStart_suffix ws (rev (dropWhileStart ws l))) as [suf Hsuf].
  exists pre, (rev suf).
  rewrite Hpre at 1. f_equal.
  rewrite <- (rev_involutive (dropWhileStart ws l)), Hsuf at 1.
  by rewrite rev_app_distr.
Qed.




(** * The expectations of the test suite

    The tests of the repository, evaluated on the embedding: those of
    [parseAccept] first, then those of the middleware. *)

Module Expectations.

Example parses_simple_accept_header :
  map entry (parseAccept (Some "text/html,application/json;q=0.9"))
  = [("text/html", [], 1%Q); ("application/json", [("q", "0.9")], 0.9%Q)].
Proof. vm_compute. reflexivity. Qed.

Example handles_missing_header :
  parseAccept (Some "") = [] ∧ parseAccept None = [].
Proof. split; reflexivity. Qed.

Example handles_extreme_q_values :
  map q (parseAccept
           (Some "a;q=999999,b;q=-99999,c;q=Infinity,d;q=-Infinity,e;q=NaN"))
  = [1%Q; 1%Q; 1%Q; 0%Q; 0%Q].
Proof. vm_compute. reflexivity. Qed.

Example handles_malformed_q_values :
  forallb (fun e => Qle_bool 0 (q e) && Qle_bool (q e) 1)
    (parseAccept
       (Some ("a;q=,b;q=invalid,c;q=1.2.3,d;q=true,e;q=" +:+ quoted "0.5")))
  = true.
Proof. vm_compute. reflexivity. Qed.

Example treats_empty_q_value_as_default_quality :
  map (fun e => (params e !! "q", q e)) (parseAccept (Some "type;q="))
  = [(Some "", 1%Q)].
Proof. vm_compute. reflexivity. Qed.

Example preserves_original_q_string_in_params :
  map (fun e => (params e !! "q", q e)) (parseAccept (Some "type;q=invalid"))
  = [(Some "invalid", 1%Q)].
Proof. vm_compute. reflexivity. Qed.

Example handles_complex_parameters :
  map (fun e => (size (params e),
                 (fun key => params e !! key) <$> ["a"; "b"; "c"; "d"; "e"]))
    (parseAccept
       (Some ("type;a=1;b=" +:+ quoted "2" +:+ ";c='3';d="
              +:+ quoted "semi;colon" +:+ ";e=" +:+ quoted "nested"
              +:+ "quoted" +:+ quoted "")))
  = [(5%nat, [Some "1"; Some (quoted "2"); Some "'3'";
              Some (quoted "semi;colon");
              Some (quoted "nested" +:+ "quoted" +:+ quoted "")])].
Proof. vm_compute. reflexivity. Qed.

Example handles_malformed_parameters :
  map entry (parseAccept (Some "type;=value;;key=;=;====;key====value"))
  = [("type", [("key", "")], 1%Q)].
Proof. vm_compute. reflexivity. Qed.

Example handles_duplicate_parameters :
  map (fun e => (params e !! "key", params e !! "KEY"))
    (parseAccept (Some "type;key=1;key=2;KEY=3"))
  = [(Some "2", Some "3")].
Proof. vm_compute. reflexivity. Qed.

Example handles_malformed_media_types :
  map (fun header => map type (parseAccept (Some header)))
    ["*/html"; "text/*mal/formed"; "/partial"; "missing/"; "inv@lid/type";
     "text/(html)"; "text/html?invalid"]
  = [["*/html"]; ["text/*mal/formed"]; ["/partial"]; ["missing/"];
     ["inv@lid/type"]; ["text/(html)"]; ["text/html?invalid"]].
Proof. vm_compute. reflexivity. Qed.

Example handles_multiple_consecutive_delimiters :
  map type (parseAccept (Some "a,,,,b;q=0.9,,,,c;q=0.8,,,,"))
  = ["a"; "b"; "c"].
Proof. vm_compute. reflexivity. Qed.

Example handles_unusual_whitespace :
  map type
    (parseAccept
       (Some (str ([newline; tab] ++ chars " a " ++ [tab; newline]
                   ++ chars " ; " ++ [newline; tab] ++ chars " q=0.9 "
                   ++ [tab; newline] ++ chars " , " ++ [newline; tab]
                   ++ chars " b " ++ [tab; newline]))))
  = ["b"; "a"].
Proof. vm_compute. reflexivity. Qed.

Example handles_potential_injection_patterns :
  map (fun header => map entry (parseAccept (Some header)))
    ["type;q=0.9--"; "type;q=0.9;drop table users"; "type;__|;q=0.9";
     scriptHeader; "application/json${process.env}"]
  = [[("type", [("q", "0.9--")], 1%Q)];
     [("type", [("q", "0.9")], 0.9%Q)];
     [("type", [("q", "0.9")], 0.9%Q)];
     [(scriptHeader, [], 1%Q)];
     [("application/json${process.env}", [], 1%Q)]].
Proof. vm_compute. reflexivity. Qed.

Example maintains_stable_sort_for_equal_q_values :
  map type (parseAccept (Some "a;q=0.9,b;q=0.9,c;q=0.9,d;q=0.9"))
  = ["a"; "b"; "c"; "d"].
Proof. vm_compute. reflexivity. Qed.

Example handles_mixed_priorities_correctly :
  map type (parseAccept (Some "d;q=0.8,b;q=0.9,c;q=0.8,a;q=0.9"))
  = ["b"; "a"; "d"; "c"].
Proof. vm_compute. reflexivity. Qed.

(** The middleware. *)

Example should_allow_calling_language_without_options :
  language noOptions = Normal (languageMiddleware DEFAULT_OPTIONS).
Proof. reflexivity. Qed.

Example should_throw_error_when_cookie_plugin_is_not_used :
  (languageMiddleware (mergeOptions DEFAULT_OPTIONS threeLanguages)
     (requestWithoutCookiePlugin (Some "fr")) (fun _ => mret tt)).2
  = Throw (HttpError 500 "Cookie plugin (eg: @hoajs/cookie) is required").
Proof. reflexivity. Qed.

Example should_detect_language_from_query_parameter :
  (run threeLanguages (request (Some "fr") None None)).1 = Normal "fr"
  ∧ (run threeLanguages (request (Some "de") None None)).1 = Normal "en"
  ∧ (run threeLanguages (request (Some "") None None)).1 = Normal "en"
  ∧ (run threeLanguages (request (Some " fr ") None None)).1 = Normal "fr".
Proof. repeat split; vm_compute; reflexivity. Qed.

Example should_detect_language_from_cookie :
  let cookieOnly :=
    userOptions (Some ["cookie"]) None (Some ["en"; "fr"; "es"]) (Some "en") in
  (run cookieOnly (request None (Some "fr") None)).1 = Normal "fr"
  ∧ (run cookieOnly (request None (Some "de") None)).1 = Normal "en"
  ∧ (run cookieOnly (request None None None)).1 = Normal "en"
  ∧ (run cookieOnly (request None (Some "") None)).1 = Normal "en".
Proof. repeat split; vm_compute; reflexivity. Qed.

Example should_detect_language_from_header :
  let headerOnly :=
    userOptions (Some ["header"]) None (Some ["en"; "fr"; "es"; "de"])
                (Some "en") in
  (run headerOnly
     (request None None (Some "fr-FR,fr;q=0.9,en-US;q=0.8,en;q=0.7"))).1
  = Normal "fr"
  ∧ (run headerOnly
       (request None None (Some " fr-FR , fr;q=0.9 , en-US;q=0.8 "))).1
    = Normal "fr"
  ∧ (run headerOnly (request None None (Some "de;q=0.9,fr;q=0.8,en;q=0.7"))).1
    = Normal "de"
  ∧ (run headerOnly (request None None (Some "it-IT,it;q=0.9,pt;q=0.8"))).1
    = Normal "en"
  ∧ (run headerOnly (request None None None)).1 = Normal "en"
  ∧ (run headerOnly (request None None (Some "invalid-header"))).1
    = Normal "en".
Proof. repeat split; vm_compute; reflexivity. Qed.

Example should_detect_language_from_path :
  let ctx path := {|
    req := {| query := Normal ∅; get := fun _ => Normal None;
              getCookie := None; pathname := Normal path |};
    res := {| setCookie := None |};
    ctx_language := None |} in
  let options index := {|
    order := ["path"]; lookupQueryString := "lang";
    lookupCookie := "language"; lookupFromPathIndex := index;
    lookupFromHeaderKey := "accept-language"; caches := CachesFalse;
    ignoreCase := true; fallbackLanguage := "en";
    supportedLanguages := ["en"; "fr"; "es"];
    convertDetectedLanguage := None; debug := false |} in
  detectFromPath (ctx "/fr/test") (options 0) = Normal (Some "fr")
  ∧ detectFromPath (ctx "/de/test") (options 0) = Normal None
  ∧ detectFromPath (ctx "/api/es/test") (options 1) = Normal (Some "es")
  ∧ detectFromPath (ctx "/test") (options 2) = Normal None
  ∧ detectFromPath (ctx "/es/test/path") (options 0) = Normal (Some "es").
Proof. repeat split; vm_compute; reflexivity. Qed.

Example should_cache_detected_language_in_cookie_when_enabled :
  run (userOptions (Some ["querystring"]) (Some (CachesArray ["cookie"]))
         (Some ["en"; "fr"; "es"]) (Some "en"))
      (request (Some "fr") None None)
  = (Normal "fr", [("language", "fr")]).
Proof. vm_compute. reflexivity. Qed.

(** [caches: 'aaa'], a truthy value that is not an array. *)
Example should_not_cache_when_caches_is_disabled :
  run (userOptions (Some ["querystring"]) (Some (CachesOther true))
         (Some ["en"; "fr"; "es"]) (Some "en"))
      (request (Some "fr") None None)
  = (Normal "fr", []).
Proof. vm_compute. reflexivity. Qed.

Example should_respect_detector_order_priority :
  (run threeLanguages (request (Some "fr") (Some "es") (Some "en"))).1
  = Normal "fr".
Proof. vm_compute. reflexivity. Qed.

Example should_fallback_to_next_detector_when_first_fails :
  (run threeLanguages (request (Some "de") (Some "fr") (Some "en"))).1
  = Normal "fr".
Proof. vm_compute. reflexivity. Qed.

Example should_use_fallback_language_when_all_detectors_fail :
  run threeLanguages (request (Some "de") (Some "it") (Some "pt"))
  = (Normal "en", []).
Proof. vm_compute. reflexivity. Qed.

Example should_normalize_valid_language_codes :
  let options := mergeOptions DEFAULT_OPTIONS threeLanguages in
  normalizeLanguage (CString "en") options = Some "en"
  ∧ normalizeLanguage (CString "FR") options = Some "fr"
  ∧ normalizeLanguage (CString "Es") options = Some "es"
  ∧ normalizeLanguage CNull options = None
  ∧ normalizeLanguage CUndefined options = None
  ∧ normalizeLanguage (CString "") options = None
  ∧ normalizeLanguage (CString "   ") options = None
  ∧ normalizeLanguage (CString "  fr  ") options = Some "fr"
  ∧ normalizeLanguage (CString "de") options = None
  ∧ normalizeLanguage (CArray ["en"; "fr"]) options = None.
Proof. repeat split; vm_compute; reflexivity. Qed.

Example should_throw_on_invalid_configuration :
  language (userOptions None None (Some ["en"; "fr"]) (Some "de"))
  = Throw (Error "Fallback language must be included in supported languages")
  ∧ language {|
      p_order := None; p_lookupQueryString := None; p_lookupCookie := None;
      p_lookupFromPathIndex := Some (-1); p_lookupFromHeaderKey := None;
      p_caches := None; p_ignoreCase := None;
      p_fallbackLanguage := Some "en";
      p_supportedLanguages := Some ["en"; "fr"];
      p_convertDetectedLanguage := None; p_debug := None |}
    = Throw (Error "Path index must be non-negative")
  ∧ language (userOptions (Some ["invalid"]) None (Some ["en"; "fr"])
                (Some "en"))
    = Throw (Error "Invalid detector type in order array").
Proof. repeat split; vm_compute; reflexivity. Qed.

End Expectations.

(** * The properties *)



(** C6. The output of the parser is its entries in order of appearance,
    sorted by descending quality, and the entries of one quality keep the
    order they appeared in. *)
Theorem parseAccept_stable header :
  StronglySorted ranks (parseAccept (Some header))
  ∧ parseAccept (Some header) ≡ₚ parseEntries header
  ∧ (∀ r, ofQuality r (parseAccept (Some header))
          = ofQuality r (parseEntries header))
  ∧ map type (parseAccept (Some "a;q=0.9,b;q=0.9,c;q=0.9,d;q=0.9"))
    = ["a"; "b"; "c"; "d"]
  ∧ map type (parseAccept (Some "d;q=0.8,b;q=0.9,c;q=0.8,a;q=0.9"))
    = ["b"; "a"; "d"; "c"].
Proof.
  rewrite parseAccept_sorted.
  split; [apply sortByQuality_sorted|].
  split; [apply sortByQuality_perm|].
  split; [intros r; apply sortByQuality_stable|].
  split; vm_compute; reflexivity.
Qed.





(** C2. Under an accepted configuration the pipeline tries the strategies
    in the configured order. If the strategies before [name] each raise an
    error or return nothing and [name] returns the language [l], the loop
    stops there: [l] is the detected language and the result, and the
    strategies called are exactly those up to [name]. If every strategy
    raises or returns nothing, all of them were called, the result is the
    fallback language, nothing was detected and no cookie is written. *)
Theorem detectLanguage_pipeline ctx options :
  validateOptions options = Normal tt →
  (∀ pre name post l,
      order options = pre ++ name :: post →
      (∀ n, n ∈ pre → yieldsNothing ctx options n) →
      yields ctx options name l →
      ∃ t, detectLanguage ctx options = (t, Normal l)
           ∧ calls t = pre ++ [name]
           ∧ (detectLoop ctx options (order options) None).2
             = Normal (Some l))
  ∧ ((∀ n, n ∈ order options → yieldsNothing ctx options n) →
      ∃ t d, detectLanguage ctx options
             = (t, Normal (fallbackLanguage options))
           ∧ calls t = order options
           ∧ (detectLoop ctx options (order options) None).2 = Normal d
           ∧ truthy_opt d = false
           ∧ cookieWrites t = []).
Proof.
  intros (_ & _ & Hknown)%validateOptions_Normal. split.
  - intros pre name post l Horder Hpre Hname.
    destruct (detectLoop_short_circuit ctx options pre name post l None
                Hpre eq_refl Hname) as (t & Hloop & Hcalls & _).
    rewrite <- Horder in Hloop.
    destruct (detectLanguage_spec ctx options t (Some l) Hloop)
      as (t' & Heq & Hcalls' & _).
    destruct (yields_supported _ _ _ _ Hname) as [_ Hl%truthy_true].
    simpl in Heq. rewrite Hl in Heq.
    exists (t ++ t'). split; [done|]. split; [|by rewrite Hloop].
    rewrite calls_app, Hcalls, Hcalls', app_nil_r, filter_known; [done|].
    intros n Hn. apply Hknown. rewrite Horder. apply elem_of_app. by left.
  - intros Hall.
    destruct (detectLoop_exhausted ctx options (order options) None
                Hall eq_refl) as (t & d & Hloop & Hd & Hcalls & Hw).
    destruct (detectLanguage_spec ctx options t d Hloop)
      as (t' & Heq & Hcalls' & Hw').
    rewrite Hd in Heq, Hw'. simpl in Hw'.
    exists (t ++ t'), d. split; [done|].
    rewrite calls_app, cookieWrites_app, Hcalls, Hcalls', Hw, Hw', Hloop.
    by rewrite app_nil_r, filter_known.
Qed.

(** With ['querystring', 'cookie', 'header'], [?lang=de] and the cookie
    [language=fr], the cookie strategy wins and the header is not read. *)
Lemma detectLanguage_pipeline_witness :
  ∃ t, detectLanguage (request (Some "de") (Some "fr") (Some "en"))
         (mergeOptions DEFAULT_OPTIONS threeLanguages) = (t, Normal "fr")
       ∧ calls t = ["querystring"] ++ ["cookie"]
       ∧ (detectLoop (request (Some "de") (Some "fr") (Some "en"))
            (mergeOptions DEFAULT_OPTIONS threeLanguages)
            (order (mergeOptions DEFAULT_OPTIONS threeLanguages)) None).2
         = Normal (Some "fr").
Proof.
  destruct (detectLanguage_pipeline
              (request (Some "de") (Some "fr") (Some "en"))
              (mergeOptions DEFAULT_OPTIONS threeLanguages) eq_refl)
    as [Hfirst _].
  apply (Hfirst ["querystring"] "cookie" ["header"] "fr").
  - reflexivity.
  - intros n ->%list_elem_of_singleton. vm_compute. reflexivity.
  - vm_compute. reflexivity.
Defined.

(** C3. Under an accepted configuration and with the cookie plugin
    installed, [detectLanguage] always returns: the language the loop
    detected, or else the fallback. It calls [setCookie] exactly once, with
    the configured cookie name and the detected language, when a language
    was detected and [caches] is an array that contains ['cookie'], and not
    at all otherwise. The result is the same whatever the response object
    and its [setCookie] do. *)
Theorem cacheLanguage_gated ctx options write :
  validateOptions options = Normal tt →
  setCookie (res ctx) = Some write →
  ∃ t t' d,
    detectLoop ctx options (order options) None = (t, Normal d)
    ∧ detectLanguage ctx options =
        (t', Normal (if truthy_opt d then default "" d
                     else fallbackLanguage options))
    ∧ cookieWrites t' =
        (if truthy_opt d && cachesCookie (caches options)
         then [(lookupCookie options, default "" d)] else [])
    ∧ ∀ res',
        (detectLanguage {| req := req ctx; res := res';
                           ctx_language := ctx_language ctx |} options).2
        = (detectLanguage ctx options).2.
Proof.
  intros _ Hwrite.
  destruct (detectLoop_total ctx options (order options) None eq_refl)
    as (t & d & Hloop & Hw & _).
  destruct (detectLanguage_spec ctx options t d Hloop) as (t' & Heq & _ & Hw').
  exists t, (t ++ t'), d. split; [done|]. split; [done|]. split.
  - rewrite cookieWrites_app, Hw, Hw', Hwrite.
    rewrite bool_decide_eq_true_2 by eauto. by rewrite andb_true_r.
  - intros res'.
    set (ctx' := {| req := req ctx; res := res';
                    ctx_language := ctx_language ctx |}).
    pose proof (detectLoop_req_only ctx' ctx options (order options) None
                  eq_refl) as Hsame.
    rewrite Hloop in Hsame.
    destruct (detectLanguage_spec ctx' options t d Hsame) as (t'' & Heq' & _).
    by rewrite Heq, Heq'.
Qed.

(** [?lang=fr] with [caches: ['cookie']] and a [setCookie] that throws: one
    write of [language=fr], and the result is still ['fr']. *)
Lemma cacheLanguage_gated_witness :
  ∃ t t' d,
    detectLoop (request (Some "fr") None None)
      (mergeOptions DEFAULT_OPTIONS threeLanguages)
      (order (mergeOptions DEFAULT_OPTIONS threeLanguages)) None
    = (t, Normal d)
    ∧ detectLanguage (request (Some "fr") None None)
        (mergeOptions DEFAULT_OPTIONS threeLanguages) = (t', Normal "fr")
    ∧ cookieWrites t' = [("language", "fr")].
Proof.
  destruct (cacheLanguage_gated (request (Some "fr") None None)
              (mergeOptions DEFAULT_OPTIONS threeLanguages)
              (fun _ _ => Throw (Error "Cache failed")) eq_refl eq_refl)
    as (t & t' & d & Hloop & Heq & Hw & _).
  exists t, t', d.
  assert (d = Some "fr") as ->.
  { vm_compute in Hloop. congruence. }
  done.
Defined.

(** C9. Under an accepted configuration [detectLanguage] returns, for every
    request, a member of the supported-language set. *)
Theorem detectLanguage_supported ctx options :
  validateOptions options = Normal tt →
  ∃ t l, detectLanguage ctx options = (t, Normal l)
         ∧ l ∈ supportedLanguages options.
Proof.
  intros (Hfallback & _)%validateOptions_Normal.
  destruct (detectLoop_total ctx options (order options) None eq_refl)
    as (t & d & Hloop & _ & Hd).
  destruct (detectLanguage_spec ctx options t d Hloop) as (t' & Heq & _).
  eexists _, _. split; [exact Heq|].
  destruct (truthy_opt d); [|done].
  by destruct Hd as (l & -> & Hl).
Qed.

Lemma detectLanguage_supported_witness :
  ∃ t l, detectLanguage (request (Some " FR ") None None)
           (mergeOptions DEFAULT_OPTIONS threeLanguages) = (t, Normal l)
         ∧ l ∈ ["en"; "fr"; "es"].
Proof.
  exact (detectLanguage_supported (request (Some " FR ") None None)
           (mergeOptions DEFAULT_OPTIONS threeLanguages) eq_refl).
Defined.

(** C8. [language(userOptions)] throws, and so returns no middleware, when
    the fallback language is not a supported language, when the path index
    is negative, or when the order names a strategy other than the four
    known ones; it returns the middleware for the merged options in every
    other case. *)
Theorem language_validates userOptions :
  let options := mergeOptions DEFAULT_OPTIONS userOptions in
  ((fallbackLanguage options ∉ supportedLanguages options
    ∨ lookupFromPathIndex options < 0
    ∨ ∃ n, n ∈ order options
           ∧ n ∉ ["path"; "querystring"; "cookie"; "header"]) →
   ∃ message, language userOptions = Throw (Error message))
  ∧ (fallbackLanguage options ∈ supportedLanguages options →
     0 <= lookupFromPathIndex options →
     (∀ n, n ∈ order options →
           n ∈ ["path"; "querystring"; "cookie"; "header"]) →
     language userOptions = Normal (languageMiddleware options)).
Proof.
  intros options.
  assert (Hkeys : ∀ n, n ∈ detector_keys
                       ↔ n ∈ ["path"; "querystring"; "cookie"; "header"]).
  { intros n. change detector_keys
      with ["querystring"; "cookie"; "header"; "path"].
    rewrite !elem_of_cons, !elem_of_nil. tauto. }
  unfold language. fold options. split.
  - intros Hbad.
    destruct (validateOptions_cases options) as [Hok|[message Hthrow]].
    + apply validateOptions_Normal in Hok as (Hf & Hi & Ho).
      destruct Hbad as [Hbad|[Hbad|(n & Hn & Hbad)]]; [done|lia|].
      destruct Hbad. by apply Hkeys, Ho.
    + exists message. by rewrite Hthrow.
  - intros Hf Hi Ho.
    assert (validateOptions options = Normal tt) as ->; [|done].
    apply validateOptions_Normal. split; [done|]. split; [done|].
    intros n Hn. by apply Hkeys, Ho.
Qed.

Lemma language_validates_witness :
  (∃ message, language unsupportedFallback = Throw (Error message))
  ∧ language threeLanguages
    = Normal (languageMiddleware (mergeOptions DEFAULT_OPTIONS threeLanguages)).
Proof.
  split.
  - apply (language_validates unsupportedFallback). left.
    apply (bool_decide_unpack _). reflexivity.
  - apply (language_validates threeLanguages).
    + apply (bool_decide_unpack _). reflexivity.
    + cbn. lia.
    + intros n Hn. cbn in Hn.
      repeat (apply elem_of_cons in Hn as [->|Hn];
              [apply (bool_decide_unpack _); reflexivity|]).
      by apply elem_of_nil in Hn.
Defined.

(** C10. Whatever the configuration, a request on which [getCookie] or
    [setCookie] is missing ends in the HTTP error 500 before anything else
    happens: no strategy is called, no cookie is written and the next
    handler is not run. *)
Theorem languageMiddleware_requires_cookie_plugin options ctx next :
  getCookie (req ctx) = None ∨ setCookie (res ctx) = None →
  languageMiddleware options ctx next =
    ([], Throw (HttpError 500 "Cookie plugin (eg: @hoajs/cookie) is required")).
Proof.
  intros Hmissing. unfold languageMiddleware, validateCookiePlugin.
  destruct Hmissing as [-> | ->].
  - by rewrite bool_decide_eq_false_2 by (by intros [? ?]).
  - rewrite (bool_decide_eq_false_2 (is_Some None)) by (by intros [? ?]).
    by rewrite orb_true_r.
Qed.

(** [order: ['querystring'], caches: false] uses no cookie at all, and
    still answers 500 without the plugin. *)
Lemma languageMiddleware_requires_cookie_plugin_witness :
  languageMiddleware (mergeOptions DEFAULT_OPTIONS cookieFree)
    (requestWithoutCookiePlugin (Some "fr")) (fun _ => mret tt) =
    ([], Throw (HttpError 500 "Cookie plugin (eg: @hoajs/cookie) is required")).
Proof.
  apply languageMiddleware_requires_cookie_plugin. left. reflexivity.
Defined.

(** C4, as the code has it. [normalizeLanguage] returns nothing for [null],
    [undefined], the empty string and an array, and for a string of white
    space when no conversion hook is configured. Any other string is trimmed
    and handed to the hook, if there is one (so a hook does see the empty
    string a white-space candidate trims to). If the hook throws, the result
    is nothing. Otherwise the value is compared with the supported
    languages, both sides in lower case when [ignoreCase] is set: if the
    compared value is empty or equals no supported language the result is
    nothing, and else it is the first supported language that matches, as
    it is stored. *)
Theorem normalizeLanguage_canonical options :
  normalizeLanguage CNull options = None
  ∧ normalizeLanguage CUndefined options = None
  ∧ normalizeLanguage (CString "") options = None
  ∧ (∀ arr, normalizeLanguage (CArray arr) options = None)
  ∧ (∀ s, convertDetectedLanguage options = None →
          forallb isWhiteSpace (chars s) = true →
          normalizeLanguage (CString s) options = None)
  ∧ (∀ s, s ≠ "" →
      (∀ e, converted options s = Throw e →
            normalizeLanguage (CString s) options = None)
      ∧ (∀ n, converted options s = Normal n →
          (foldCase options n = "" →
           normalizeLanguage (CString s) options = None)
          ∧ ((∀ l, l ∈ supportedLanguages options →
                   foldCase options l ≠ foldCase options n) →
             normalizeLanguage (CString s) options = None)
          ∧ (∀ pre l post,
               foldCase options n ≠ "" →
               supportedLanguages options = pre ++ l :: post →
               foldCase options l = foldCase options n →
               (∀ y, y ∈ pre → foldCase options y ≠ foldCase options n) →
               normalizeLanguage (CString s) options = Some l))).
Proof.
  repeat split; try done.
  - intros s Hhook Hws.
    destruct (decide (s = "")) as [->|Hs]; [done|].
    apply (normalizeLanguage_empty_fold options s (trim s) Hs).
    + unfold converted. by rewrite Hhook.
    + apply foldCase_empty. by apply trim_whitespace_only.
  - intros e He. by rewrite normalizeLanguage_string, He.
  - by apply normalizeLanguage_empty_fold.
  - by apply normalizeLanguage_no_match.
  - intros pre l post Hne Hsup Hl Hpre.
    by apply (normalizeLanguage_match options s n pre l post).
Qed.

(** [normalizeLanguage('  FR  ', { supportedLanguages: ['en', 'fr', 'es'],
    ignoreCase: true })] is ['fr'], the stored spelling. *)
Lemma normalizeLanguage_canonical_witness :
  normalizeLanguage (CString "  FR  ")
    (mergeOptions DEFAULT_OPTIONS threeLanguages) = Some "fr".
Proof.
  destruct (normalizeLanguage_canonical
              (mergeOptions DEFAULT_OPTIONS threeLanguages))
    as (_ & _ & _ & _ & _ & Hstring).
  destruct (Hstring "  FR  ") as [_ Hnormal]; [discriminate|].
  destruct (Hnormal "FR") as (_ & _ & Hmatch); [reflexivity|].
  apply (Hmatch ["en"] "fr" ["es"]).
  - discriminate.
  - reflexivity.
  - reflexivity.
  - intros y ->%list_elem_of_singleton. discriminate.
Defined.

(** C4 as stated fails on a white-space candidate when a conversion hook is
    configured: with the hook [(lang) => lang || 'en'] the candidate ['   ']
    is normalized to ['en']. *)
Lemma normalizeLanguage_whitespace_counterexample :
  forallb isWhiteSpace (chars "   ") = true
  ∧ normalizeLanguage (CString "   ") (mergeOptions DEFAULT_OPTIONS orEnglish)
    = Some "en".
Proof. split; reflexivity. Qed.

(** * Further properties of [index.ts] *)

(** ** [normalizeLanguage], further *)

Lemma normalizeLanguage_sound options lang l :
  normalizeLanguage lang options = Some l →
  ∃ s n pre post,
    lang = CString s ∧ s ≠ ""
    ∧ converted options s = Normal n
    ∧ foldCase options n ≠ ""
    ∧ supportedLanguages options = pre ++ l :: post
    ∧ foldCase options l = foldCase options n
    ∧ ∀ y, y ∈ pre → foldCase options y ≠ foldCase options n.
Proof.
  destruct lang as [| |s|arr]; try done.
  destruct (decide (s = "")) as [->|Hs]; [done|].
  rewrite normalizeLanguage_string by done.
  destruct (converted options s) as [n|e] eqn:Hn; [|done]. simpl.
  destruct (find_eq _ _) as [m|] eqn:E; [|done].
  apply find_eq_Some in E as [-> Hin].
  destruct (truthy _) eqn:Ht; [|done]. apply truthy_true in Ht.
  apply elem_of_map_first in Hin as (pre & l' & post & Hsup & Hl & Hpre).
  rewrite Hsup.
  destruct (indexOf_first (foldCase options) pre l' post _ Hl Hpre) as [-> _].
  intros [= <-]. by exists s, n, pre, post.
Qed.

(** X1. Whatever [normalizeLanguage] returns comes from a non-empty string
    candidate: it is a non-empty supported language that equals the trimmed
    (and, with a hook, converted) candidate, up to case when [ignoreCase] is
    set, and no supported language listed before it does. *)
Theorem normalizeLanguage_only_match options lang l :
  normalizeLanguage lang options = Some l →
  ∃ s n pre post,
    lang = CString s ∧ s ≠ ""
    ∧ converted options s = Normal n
    ∧ l ≠ ""
    ∧ supportedLanguages options = pre ++ l :: post
    ∧ foldCase options l = foldCase options n
    ∧ ∀ y, y ∈ pre → foldCase options y ≠ foldCase options n.
Proof.
  intros H.
  destruct (normalizeLanguage_sound options lang l H)
    as (s & n & pre & post & Hlang & Hs & Hn & Hne & Hsup & Hl & Hpre).
  exists s, n, pre, post. repeat (split; [done|]). split; [|done].
  intros ->. apply Hne. rewrite <- Hl. by apply foldCase_empty.
Qed.

Lemma normalizeLanguage_only_match_witness :
  ∃ s n pre post,
    CString " FR " = CString s ∧ s ≠ ""
    ∧ converted (mergeOptions DEFAULT_OPTIONS threeLanguages) s = Normal n
    ∧ "fr" ≠ ""
    ∧ ["en"; "fr"; "es"] = pre ++ "fr" :: post
    ∧ foldCase (mergeOptions DEFAULT_OPTIONS threeLanguages) "fr"
      = foldCase (mergeOptions DEFAULT_OPTIONS threeLanguages) n
    ∧ ∀ y, y ∈ pre →
           foldCase (mergeOptions DEFAULT_OPTIONS threeLanguages) y
           ≠ foldCase (mergeOptions DEFAULT_OPTIONS threeLanguages) n.
Proof.
  apply (normalizeLanguage_only_match
           (mergeOptions DEFAULT_OPTIONS threeLanguages) (CString " FR ") "fr").
  reflexivity.
Defined.


(** *** Trimming *)

Lemma dropWhileStart_clean ws l : startsClean ws (dropWhileStart ws l).
Proof.
  induction l as [|c l IH]; simpl; [done|].
  by destruct (ws c) eqn:Hc.
Qed.

Lemma dropWhileStart_id ws l : startsClean ws l → dropWhileStart ws l = l.
Proof. destruct l as [|c l]; simpl; [done|]. by intros ->. Qed.

Lemma startsClean_app_l ws a b :
  a ≠ [] → startsClean ws (a ++ b) → startsClean ws a.
Proof. by destruct a. Qed.

Lemma trimBy_clean ws l :
  startsClean ws (trimBy ws l) ∧ startsClean ws (rev (trimBy ws l)).
Proof.
  unfold trimBy. rewrite rev_involutive.
  split; [|apply dropWhileStart_clean].
  pose proof (dropWhileStart_clean ws l) as Ha.
  destruct (dropWhileStart_suffix ws (rev (dropWhileStart ws l)))
    as [pre Hpre].
  set (b := dropWhileStart ws (rev (dropWhileStart ws l))) in *.
  destruct b as [|c b'] eqn:Hb; [done|].
  apply (startsClean_app_l ws _ (rev pre)).
  - intros Hnil%(f_equal (@length ascii)).
    rewrite length_rev in Hnil. done.
  - rewrite <- rev_app_distr, <- Hpre. by rewrite rev_involutive.
Qed.

Lemma trimBy_id ws l :
  startsClean ws l → startsClean ws (rev l) → trimBy ws l = l.
Proof.
  intros H1 H2. unfold trimBy.
  rewrite (dropWhileStart_id ws l H1), (dropWhileStart_id ws _ H2).
  apply rev_involutive.
Qed.

Lemma trimBy_idempotent ws l : trimBy ws (trimBy ws l) = trimBy ws l.
Proof. destruct (trimBy_clean ws l). by apply trimBy_id. Qed.

Lemma dropWhileStart_map ws (f : ascii → ascii) l :
  (∀ c, ws (f c) = ws c) →
  dropWhileStart ws (map f l) = map f (dropWhileStart ws l).
Proof.
  intros Hf. induction l as [|c l IH]; simpl; [done|].
  rewrite Hf. by destruct (ws c).
Qed.

Lemma trimBy_map ws (f : ascii → ascii) l :
  (∀ c, ws (f c) = ws c) → trimBy ws (map f l) = map f (trimBy ws l).
Proof.
  intros Hf. unfold trimBy.
  by rewrite dropWhileStart_map, <- map_rev, dropWhileStart_map, map_rev.
Qed.

Lemma infix_same_length a b : infix a b → length a = length b → a = b.
Proof.
  intros (pre & post & ->) Hlen. rewrite !length_app in Hlen.
  destruct pre; [|simpl in Hlen; lia].
  destruct post; [|simpl in Hlen; lia].
  by rewrite app_nil_r.
Qed.

(** A string that agrees with a trimmed one up to [f] is trimmed. *)
Lemma trimBy_fixed_up_to ws (f : ascii → ascii) l t :
  (∀ c, ws (f c) = ws c) →
  map f l = map f (trimBy ws t) → trimBy ws l = l.
Proof.
  intros Hf Heq. apply infix_same_length; [apply trimBy_infix|].
  rewrite <- (length_map f (trimBy ws l)), <- (trimBy_map ws f l Hf), Heq.
  rewrite <- (trimBy_map ws f _ Hf), trimBy_idempotent, (trimBy_map ws f t Hf).
  by rewrite <- Heq, length_map.
Qed.

Lemma isWhiteSpace_lowerChar c : isWhiteSpace (lowerChar c) = isWhiteSpace c.
Proof. by destruct c as [[] [] [] [] [] [] [] []]. Qed.

Lemma str_inj l1 l2 : str l1 = str l2 → l1 = l2.
Proof. intros H%(f_equal chars). by rewrite !chars_str in H. Qed.

(** A string that matches a trimmed one in [normalizeLanguage] is trimmed. *)
Lemma foldCase_trimmed options l s :
  foldCase options l = foldCase options (trim s) → trim l = l.
Proof.
  unfold foldCase, trim, toLowerCase. intros H.
  rewrite <- (str_chars l) at 2. f_equal.
  destruct (ignoreCase options).
  - apply str_inj in H. rewrite chars_str in H.
    by apply (trimBy_fixed_up_to _ lowerChar _ (chars s) isWhiteSpace_lowerChar).
  - subst l. rewrite chars_str. apply trimBy_idempotent.
Qed.

(** X2. The match depends on the candidate only through its trimmed form,
    and without a hook only through that form up to case. *)
Theorem normalizeLanguage_invariant options s s' :
  s ≠ "" → s' ≠ "" →
  (trim s = trim s' →
   normalizeLanguage (CString s) options
   = normalizeLanguage (CString s') options)
  ∧ (convertDetectedLanguage options = None →
     foldCase options (trim s) = foldCase options (trim s') →
     normalizeLanguage (CString s) options
     = normalizeLanguage (CString s') options).
Proof.
  intros Hs Hs'. rewrite !normalizeLanguage_string by done. split.
  - intros Ht. unfold converted. by rewrite Ht.
  - intros Hhook Hf. unfold converted. rewrite Hhook. simpl. by rewrite Hf.
Qed.

Lemma normalizeLanguage_invariant_witness :
  normalizeLanguage (CString " FR ")
    (mergeOptions DEFAULT_OPTIONS threeLanguages)
  = normalizeLanguage (CString "fr")
      (mergeOptions DEFAULT_OPTIONS threeLanguages).
Proof.
  apply (normalizeLanguage_invariant
           (mergeOptions DEFAULT_OPTIONS threeLanguages) " FR " "fr");
    try discriminate; reflexivity.
Defined.

Lemma normalizeLanguage_again options lang l :
  convertDetectedLanguage options = None →
  normalizeLanguage lang options = Some l →
  normalizeLanguage (CString l) options = Some l.
Proof.
  intros Hhook
    (s & n & pre & post & -> & Hs & Hn & Hne & Hsup & Hl & Hpre)
      %normalizeLanguage_sound.
  unfold converted in Hn. rewrite Hhook in Hn. injection Hn as <-.
  assert (l ≠ "") as Hlne.
  { intros ->. apply Hne. rewrite <- Hl. by apply foldCase_empty. }
  apply (normalizeLanguage_match options l l pre l post); try done.
  - unfold converted. rewrite Hhook. f_equal. by eapply foldCase_trimmed.
  - by rewrite Hl.
  - intros y Hy. rewrite Hl. by apply Hpre.
Qed.

(** X3. Without a conversion hook, a language [normalizeLanguage] returned
    normalizes to itself. *)
Theorem normalizeLanguage_idempotent options lang l :
  convertDetectedLanguage options = None →
  normalizeLanguage lang options = Some l →
  normalizeLanguage (CString l) options = Some l.
Proof.
  intros Hhook Hl.
  destruct (normalizeLanguage_sound options lang l Hl)
    as (s & n & pre & post & _ & _ & Hn & Hne & Hsup & Hfold & Hpre).
  unfold converted in Hn. rewrite Hhook in Hn. injection Hn as <-.
  assert (trim l = l) as Htrim by by eapply foldCase_trimmed.
  assert (l ≠ "") as Hlne.
  { intros ->. apply Hne. rewrite <- Hfold. by apply foldCase_empty. }
  apply (normalizeLanguage_match options l l pre l post); try done.
  - unfold converted. by rewrite Hhook, Htrim.
  - by rewrite Hfold.
  - intros y Hy. rewrite Hfold. by apply Hpre.
Qed.

Lemma normalizeLanguage_idempotent_witness :
  normalizeLanguage (CString "fr")
    (mergeOptions DEFAULT_OPTIONS threeLanguages) = Some "fr".
Proof.
  apply (normalizeLanguage_idempotent
           (mergeOptions DEFAULT_OPTIONS threeLanguages) (CString " FR "));
    reflexivity.
Defined.

(** ** The pipeline, further *)

(** Either no strategy of [names] yields, or there is a first one that
    does. *)
Lemma first_yield ctx options (names : list string) :
  (∀ n, n ∈ names → yieldsNothing ctx options n)
  ∨ ∃ pre name post l,
      names = pre ++ name :: post
      ∧ (∀ n, n ∈ pre → yieldsNothing ctx options n)
      ∧ yields ctx options name l.
Proof.
  induction names as [|n names IH].
  - left. intros n []%elem_of_nil.
  - destruct (strategy_cases ctx options n) as [Hn|[l Hl]].
    + destruct IH as [Hall|(pre & name & post & l & -> & Hpre & Hname)].
      * left. intros m [->|Hm]%elem_of_cons; auto.
      * right. exists (n :: pre), name, post, l. split; [done|].
        split; [|done]. intros m [->|Hm]%elem_of_cons; auto.
    + right. exists [], n, names, l. split; [done|]. split; [|done].
      intros m []%elem_of_nil.
Qed.

(** X4. The result of [detectLanguage] is the language of the first strategy
    of the order that yields one, and the fallback when none does. *)
Theorem detectLanguage_decides ctx options :
  validateOptions options = Normal tt →
  (∃ pre name post l,
      order options = pre ++ name :: post
      ∧ (∀ n, n ∈ pre → yieldsNothing ctx options n)
      ∧ yields ctx options name l
      ∧ (detectLanguage ctx options).2 = Normal l)
  ∨ ((∀ n, n ∈ order options → yieldsNothing ctx options n)
     ∧ (detectLanguage ctx options).2 = Normal (fallbackLanguage options)).
Proof.
  intros _.
  destruct (first_yield ctx options (order options))
    as [Hall|(pre & name & post & l & Horder & Hpre & Hname)].
  - right. split; [done|].
    destruct (detectLoop_exhausted ctx options (order options) None
                Hall eq_refl) as (t & d & Hloop & Hd & _).
    destruct (detectLanguage_spec ctx options t d Hloop) as (t' & Heq & _).
    by rewrite Heq, Hd.
  - left. exists pre, name, post, l. split; [done|]. split; [done|].
    split; [done|].
    destruct (detectLoop_short_circuit ctx options pre name post l None
                Hpre eq_refl Hname) as (t & Hloop & _).
    rewrite <- Horder in Hloop.
    destruct (detectLanguage_spec ctx options t (Some l) Hloop)
      as (t' & Heq & _).
    destruct (yields_supported _ _ _ _ Hname) as [_ Hl%truthy_true].
    rewrite Heq. simpl. by rewrite Hl.
Qed.

Lemma detectLanguage_decides_witness :
  (detectLanguage (request (Some "de") (Some "it") (Some "pt"))
     (mergeOptions DEFAULT_OPTIONS threeLanguages)).2 = Normal "en".
Proof.
  destruct (detectLanguage_decides
              (request (Some "de") (Some "it") (Some "pt"))
              (mergeOptions DEFAULT_OPTIONS threeLanguages) eq_refl)
    as [(pre & name & post & l & _ & _ & _ & Heq)|[_ Heq]]; [|exact Heq].
  vm_compute. reflexivity.
Defined.

(** X5. The strategies are called in the configured order, without a gap
    and without a retry: the calls are a prefix of the order. The cookie is
    written only after the last call. *)
Theorem detectLanguage_trace ctx options :
  validateOptions options = Normal tt →
  calls (detectLanguage ctx options).1 `prefix_of` order options
  ∧ ∃ t1 t2, (detectLanguage ctx options).1 = t1 ++ t2
             ∧ cookieWrites t1 = [] ∧ calls t2 = [].
Proof.
  intros (_ & _ & Hknown)%validateOptions_Normal. split.
  - destruct (first_yield ctx options (order options))
      as [Hall|(pre & name & post & l & Horder & Hpre & Hname)].
    + destruct (detectLoop_exhausted ctx options (order options) None
                  Hall eq_refl) as (t & d & Hloop & _ & Hcalls & _).
      destruct (detectLanguage_spec ctx options t d Hloop)
        as (t' & Heq & Hcalls' & _).
      rewrite Heq. simpl.
      by rewrite calls_app, Hcalls, Hcalls', app_nil_r, filter_known.
    + destruct (detectLoop_short_circuit ctx options pre name post l None
                  Hpre eq_refl Hname) as (t & Hloop & Hcalls & _).
      rewrite <- Horder in Hloop.
      destruct (detectLanguage_spec ctx options t (Some l) Hloop)
        as (t' & Heq & Hcalls' & _).
      rewrite Heq. simpl.
      rewrite calls_app, Hcalls, Hcalls', app_nil_r, filter_known.
      * exists post. rewrite Horder. by rewrite <- app_assoc.
      * intros n Hn. apply Hknown. rewrite Horder. apply elem_of_app. by left.
  - destruct (detectLoop_total ctx options (order options) None eq_refl)
      as (t & d & Hloop & Hw & _).
    destruct (detectLanguage_spec ctx options t d Hloop)
      as (t' & Heq & Hcalls' & _).
    exists t, t'. by rewrite Heq.
Qed.

Lemma detectLanguage_trace_witness :
  calls (detectLanguage (request (Some "fr") (Some "es") (Some "en"))
           (mergeOptions DEFAULT_OPTIONS threeLanguages)).1
  `prefix_of` ["querystring"; "cookie"; "header"].
Proof.
  apply (detectLanguage_trace (request (Some "fr") (Some "es") (Some "en"))
           (mergeOptions DEFAULT_OPTIONS threeLanguages) eq_refl).
Defined.

(** *** The debug flag *)

Lemma console_app t1 t2 : console (t1 ++ t2) = console t1 ++ console t2.
Proof. apply omap_app. Qed.

Lemma normalizeLanguage_withDebug b lang options :
  normalizeLanguage lang (withDebug b options) = normalizeLanguage lang options.
Proof. done. Qed.

Lemma firstNormalized_withDebug b languages options :
  firstNormalized languages (withDebug b options)
  = firstNormalized languages options.
Proof.
  induction languages as [|[lang w] languages IH]; cbn [firstNormalized];
    [done|].
  by rewrite normalizeLanguage_withDebug, IH.
Qed.

Lemma invoke_withDebug b ctx options name :
  invoke name ctx (withDebug b options) = invoke name ctx options.
Proof.
  unfold invoke. rewrite detectors_get_eq.
  repeat (destruct (String.eqb _ name); [f_equal; f_equal|]); try done.
  unfold detectFromHeader. cbn [lookupFromHeaderKey withDebug].
  destruct (get _ _) as [h|]; simpl; [|done].
  destruct (truthy_opt h); simpl; [|done].
  by rewrite firstNormalized_withDebug.
Qed.

Lemma yieldsNothing_withDebug b ctx options name :
  yieldsNothing ctx (withDebug b options) name ↔ yieldsNothing ctx options name.
Proof. unfold yieldsNothing. by rewrite invoke_withDebug. Qed.

Lemma yields_withDebug b ctx options name l :
  yields ctx (withDebug b options) name l ↔ yields ctx options name l.
Proof. unfold yields. by rewrite invoke_withDebug. Qed.

(** X6. The debug flag changes the console output only: the result, the
    strategies called and the cookie written are the same with and without
    it. *)
Theorem detectLanguage_withDebug b ctx options :
  validateOptions options = Normal tt →
  (detectLanguage ctx (withDebug b options)).2 = (detectLanguage ctx options).2
  ∧ calls (detectLanguage ctx (withDebug b options)).1
    = calls (detectLanguage ctx options).1
  ∧ cookieWrites (detectLanguage ctx (withDebug b options)).1
    = cookieWrites (detectLanguage ctx options).1.
Proof.
  intros _. set (options' := withDebug b options).
  destruct (first_yield ctx options (order options))
    as [Hall|(pre & name & post & l & Horder & Hpre & Hname)].
  - assert (∀ n, n ∈ order options' → yieldsNothing ctx options' n) as Hall'.
    { intros n Hn. by apply yieldsNothing_withDebug, Hall. }
    destruct (detectLoop_exhausted ctx options (order options) None
                Hall eq_refl) as (t & d & Hloop & Hd & Hcalls & Hw).
    destruct (detectLoop_exhausted ctx options' (order options') None
                Hall' eq_refl) as (t0 & d0 & Hloop0 & Hd0 & Hcalls0 & Hw0).
    destruct (detectLanguage_spec ctx options t d Hloop)
      as (t' & -> & Hcalls' & Hw').
    destruct (detectLanguage_spec ctx options' t0 d0 Hloop0)
      as (t0' & -> & Hcalls0' & Hw0').
    simpl. rewrite !calls_app, !cookieWrites_app.
    rewrite Hcalls, Hcalls0, Hcalls', Hcalls0', Hw, Hw0, Hw', Hw0', Hd, Hd0.
    done.
  - assert (∀ n, n ∈ pre → yieldsNothing ctx options' n) as Hpre'.
    { intros n Hn. by apply yieldsNothing_withDebug, Hpre. }
    assert (yields ctx options' name l) as Hname'
      by by apply yields_withDebug.
    destruct (detectLoop_short_circuit ctx options pre name post l None
                Hpre eq_refl Hname) as (t & Hloop & Hcalls & Hw).
    destruct (detectLoop_short_circuit ctx options' pre name post l None
                Hpre' eq_refl Hname') as (t0 & Hloop0 & Hcalls0 & Hw0).
    rewrite <- Horder in Hloop, Hloop0.
    destruct (detectLanguage_spec ctx options t (Some l) Hloop)
      as (t' & -> & Hcalls' & Hw').
    destruct (detectLanguage_spec ctx options' t0 (Some l) Hloop0)
      as (t0' & -> & Hcalls0' & Hw0').
    simpl. rewrite !calls_app, !cookieWrites_app.
    rewrite Hcalls, Hcalls0, Hcalls', Hcalls0', Hw, Hw0, Hw', Hw0'.
    done.
Qed.

(** With [debug: true] the request [?lang=fr] has the same result and the
    same cookie write as without. *)
Lemma detectLanguage_withDebug_witness :
  (detectLanguage (request (Some "fr") None None)
     (withDebug true (mergeOptions DEFAULT_OPTIONS threeLanguages))).2
  = Normal "fr"
  ∧ cookieWrites
      (detectLanguage (request (Some "fr") None None)
         (withDebug true (mergeOptions DEFAULT_OPTIONS threeLanguages))).1
    = [("language", "fr")].
Proof.
  destruct (detectLanguage_withDebug true (request (Some "fr") None None)
              (mergeOptions DEFAULT_OPTIONS threeLanguages) eq_refl)
    as (Hresult & _ & Hwrites).
  rewrite Hresult, Hwrites. split; reflexivity.
Defined.

Lemma detectLoop_silent ctx options names d0 :
  debug options = false →
  console (detectLoop ctx options names d0).1 = [].
Proof.
  intros Hdebug. revert d0.
  induction names as [|name names IH]; intros d0; [done|].
  rewrite detectLoop_cons, Hdebug.
  destruct (detectors_get name) as [d|] eqn:Hd.
  - rewrite (invoke_known _ _ _ _ Hd).
    destruct (d ctx options) as [r|e]; unfold_eff.
    + destruct (truthy_opt r); simpl; [done|].
      specialize (IH r).
      destruct (detectLoop ctx options names r) as [t' [?|?]]; simpl in *;
        done.
    + specialize (IH d0).
      destruct (detectLoop ctx options names d0) as [t' [?|?]]; simpl in *;
        done.
  - rewrite (invoke_unknown _ _ _ Hd). unfold_eff.
    specialize (IH d0).
    destruct (detectLoop ctx options names d0) as [t' [?|?]]; simpl in *;
      done.
Qed.

(** X7. Without the debug flag nothing is sent to the console, whatever the
    strategies and the cookie write do. *)
Theorem detectLanguage_silent ctx options :
  validateOptions options = Normal tt →
  debug options = false → console (detectLanguage ctx options).1 = [].
Proof.
  intros _ Hdebug.
  destruct (detectLoop_total ctx options (order options) None eq_refl)
    as (t & d & Hloop & _).
  pose proof (detectLoop_silent ctx options (order options) None Hdebug)
    as Hsilent.
  rewrite Hloop in Hsilent. simpl in Hsilent.
  unfold detectLanguage. rewrite Hloop, Eff_bind_Normal. cbv beta zeta.
  cbn [fst]. rewrite console_app, Hsilent, Hdebug. simpl.
  destruct (truthy_opt d); cbn [negb andb]; unfold_eff.
  - unfold cacheLanguage. rewrite Hdebug.
    destruct (caches options) as [|arr|[]]; simpl; try done.
    destruct (includes arr "cookie"); simpl; [|done].
    destruct (setCookie (res ctx)) as [f|]; unfold_eff; [|done].
    by destruct (f _ _) as [[]|e].
  - done.
Qed.

Lemma detectLanguage_silent_witness :
  console (detectLanguage (request (Some "fr") None None)
             (mergeOptions DEFAULT_OPTIONS threeLanguages)).1 = [].
Proof.
  apply (detectLanguage_silent (request (Some "fr") None None)
           (mergeOptions DEFAULT_OPTIONS threeLanguages));
    reflexivity.
Defined.

(** *** The cookie cache, read back *)

Lemma firstNormalized_normalized languages options l :
  firstNormalized languages options = Some l →
  ∃ lang, normalizeLanguage lang options = Some l.
Proof.
  induction languages as [|[lang w] languages IH]; cbn [firstNormalized];
    [done|].
  destruct (truthy_opt _); [|done]. by exists (CString lang).
Qed.

(** What a detector returns, [normalizeLanguage] returned. *)
Lemma detector_normalized name (detector : Detector) ctx options l :
  detectors_get name = Some detector →
  detector ctx options = Normal (Some l) →
  ∃ lang, normalizeLanguage lang options = Some l.
Proof.
  rewrite detectors_get_eq.
  repeat (destruct (String.eqb _ name); [intros [= <-]|]); try done.
  - unfold detectFromQuery. destruct (query _); simpl; [|done].
    intros [= H]. eauto.
  - unfold detectFromCookie. destruct (getCookie _) as [f|]; [|done].
    destruct (f _) as [[]|]; simpl; try done; intros [= H]; eauto.
  - unfold detectFromHeader. destruct (get _ _) as [h|]; simpl; [|done].
    destruct (truthy_opt h); simpl; [|done].
    intros [= H]. by apply firstNormalized_normalized in H.
  - unfold detectFromPath. destruct (pathname _); simpl; [|done].
    intros [= H]. eauto.
Qed.

Lemma yields_normalized ctx options name l :
  yields ctx options name l → ∃ lang, normalizeLanguage lang options = Some l.
Proof.
  unfold yields. destruct (detectors_get name) as [d|] eqn:Hd.
  - rewrite (invoke_known _ _ _ _ Hd). simpl. by eapply detector_normalized.
  - by rewrite (invoke_unknown _ _ _ Hd).
Qed.

(** X8. Without a conversion hook, a language that [detectLanguage] wrote to
    the cookie is detected again from that cookie: on a later request whose
    cookie store returns the written value under the written name,
    [detectFromCookie] returns that same language. *)
Theorem cookie_round_trip ctx options name value ctx' read :
  validateOptions options = Normal tt →
  convertDetectedLanguage options = None →
  (name, value) ∈ cookieWrites (detectLanguage ctx options).1 →
  getCookie (req ctx') = Some read →
  read name = Normal (CookieString value) →
  name = lookupCookie options
  ∧ (detectLanguage ctx options).2 = Normal value
  ∧ detectFromCookie ctx' options = Normal (Some value).
Proof.
  intros _ Hhook Hwritten Hread Hvalue.
  destruct (first_yield ctx options (order options))
    as [Hall|(pre & n & post & l & Horder & Hpre & Hname)].
  - destruct (detectLoop_exhausted ctx options (order options) None
                Hall eq_refl) as (t & d & Hloop & Hd & _ & Hw).
    destruct (detectLanguage_spec ctx options t d Hloop)
      as (t' & Heq & _ & Hw').
    rewrite Heq in Hwritten. simpl in Hwritten.
    rewrite cookieWrites_app, Hw, Hw', Hd in Hwritten.
    by apply elem_of_nil in Hwritten.
  - destruct (detectLoop_short_circuit ctx options pre n post l None
                Hpre eq_refl Hname) as (t & Hloop & _ & Hw).
    rewrite <- Horder in Hloop.
    destruct (detectLanguage_spec ctx options t (Some l) Hloop)
      as (t' & Heq & _ & Hw').
    destruct (yields_supported _ _ _ _ Hname) as [_ Hl%truthy_true].
    rewrite Heq in Hwritten |- *. simpl in *. rewrite Hl in *.
    rewrite cookieWrites_app, Hw, Hw' in Hwritten. simpl in Hwritten.
    destruct (_ && _); [|by apply elem_of_nil in Hwritten].
    apply list_elem_of_singleton in Hwritten as [= -> ->].
    split; [done|]. split; [done|].
    unfold detectFromCookie. rewrite Hread, Hvalue. simpl. f_equal.
    destruct (yields_normalized _ _ _ _ Hname) as [lang Hlang].
    by apply (normalizeLanguage_again options lang).
Qed.

(** [?lang=FR] is cached as [language=fr], and [language=fr] is detected
    as ['fr']. *)
Lemma cookie_round_trip_witness :
  detectFromCookie (request None (Some "fr") None)
    (mergeOptions DEFAULT_OPTIONS threeLanguages) = Normal (Some "fr").
Proof.
  destruct (cookie_round_trip (request (Some "FR") None None)
              (mergeOptions DEFAULT_OPTIONS threeLanguages)
              "language" "fr" (request None (Some "fr") None)
              (fun _ => Normal (CookieString "fr")))
    as (_ & _ & Hread).
  - reflexivity.
  - reflexivity.
  - vm_compute. left.
  - reflexivity.
  - reflexivity.
  - exact Hread.
Defined.

(** ** The middleware, further *)

(** X9. With the cookie plugin installed and an accepted configuration, the
    middleware runs the next handler exactly once, on the same request and
    response, with [ctx.language] set to a supported language; what the
    handler does and returns, errors included, comes after the middleware's
    own effects and is its outcome. *)
Theorem languageMiddleware_next options ctx next :
  validateOptions options = Normal tt →
  is_Some (getCookie (req ctx)) → is_Some (setCookie (res ctx)) →
  ∃ t lang,
    detectLanguage ctx options = (t, Normal lang)
    ∧ lang ∈ supportedLanguages options
    ∧ languageMiddleware options ctx next =
        (t ++ (next (withLanguage ctx lang)).1,
         (next (withLanguage ctx lang)).2).
Proof.
  intros (Hfallback & _)%validateOptions_Normal Hget Hset.
  destruct (detectLoop_total ctx options (order options) None eq_refl)
    as (t & d & Hloop & _ & Hd).
  destruct (detectLanguage_spec ctx options t d Hloop) as (t' & Heq & _).
  eexists _, _. split; [exact Heq|]. split.
  - destruct (truthy_opt d); [|done]. by destruct Hd as (l & -> & Hl).
  - unfold languageMiddleware, validateCookiePlugin.
    rewrite !bool_decide_eq_true_2 by done. rewrite Heq. simpl.
    unfold withLanguage. unfold_eff.
    by destruct (next _) as [tn [[]|e]].
Qed.

Lemma languageMiddleware_next_witness :
  ∃ t lang,
    detectLanguage (request (Some "fr") None None)
      (mergeOptions DEFAULT_OPTIONS threeLanguages) = (t, Normal lang)
    ∧ lang ∈ ["en"; "fr"; "es"]
    ∧ languageMiddleware (mergeOptions DEFAULT_OPTIONS threeLanguages)
        (request (Some "fr") None None)
        (fun _ => throw (Error "handler failed"))
      = (t ++ [], Throw (Error "handler failed")).
Proof.
  apply (languageMiddleware_next
           (mergeOptions DEFAULT_OPTIONS threeLanguages)
           (request (Some "fr") None None)
           (fun _ => throw (Error "handler failed")) eq_refl);
    by eexists.
Defined.

(** ** [validateOptions], further *)

Lemma forallb_false (f : string → bool) (l : list string) :
  forallb f l = false → ∃ x, x ∈ l ∧ f x = false.
Proof.
  induction l as [|x l IH]; simpl; [done|].
  destruct (f x) eqn:Hx; simpl.
  - intros (y & Hy & Hfy)%IH. exists y. split; [by right|done].
  - intros _. exists x. split; [by left|done].
Qed.

(** X10. The three checks run in a fixed order and the message tells which
    one failed first: the fallback check, then the path index, then the
    order. *)
Theorem validateOptions_message options :
  (validateOptions options
   = Throw (Error "Fallback language must be included in supported languages")
   ↔ fallbackLanguage options ∉ supportedLanguages options)
  ∧ (validateOptions options = Throw (Error "Path index must be non-negative")
     ↔ fallbackLanguage options ∈ supportedLanguages options
       ∧ lookupFromPathIndex options < 0)
  ∧ (validateOptions options
     = Throw (Error "Invalid detector type in order array")
     ↔ fallbackLanguage options ∈ supportedLanguages options
       ∧ 0 <= lookupFromPathIndex options
       ∧ ∃ n, n ∈ order options ∧ n ∉ detector_keys).
Proof.
  unfold validateOptions.
  destruct (includes _ _) eqn:Hf; cbn [negb].
  - apply includes_elem in Hf.
    destruct (Z.ltb_spec (lookupFromPathIndex options) 0) as [Hi|Hi].
    + split; [split; [done|by intros []]|].
      split; [done|]. split; [done|]. intros (_ & ? & _). lia.
    + destruct (forallb _ _) eqn:Ho; cbn [negb].
      * split; [split; [done|by intros []]|].
        split; [split; [done|intros [_ ?]; lia]|].
        split; [done|]. intros (_ & _ & n & Hn & Hbad).
        rewrite forallb_forall in Ho. destruct Hbad.
        by apply includes_elem, Ho, list_elem_of_In.
      * split; [split; [done|by intros []]|].
        split; [split; [done|intros [_ ?]; lia]|].
        split; [|done]. intros _. split; [done|]. split; [done|].
        apply forallb_false in Ho as (n & Hn & Hbad).
        exists n. split; [done|]. intros Hin%includes_elem. congruence.
  - split; [split; [intros _|done]|].
    + intros Hin%includes_elem. congruence.
    + split; (split; [done|]); intros [Hin%includes_elem _]; congruence.
Qed.

Lemma validateOptions_message_witness :
  validateOptions (mergeOptions DEFAULT_OPTIONS unsupportedFallback)
  = Throw (Error "Fallback language must be included in supported languages").
Proof.
  apply (validateOptions_message
           (mergeOptions DEFAULT_OPTIONS unsupportedFallback)).
  apply (bool_decide_unpack _). reflexivity.
Defined.


(** ** [detectFromPath], further *)

Lemma split_cons sep s : ∃ piece pieces, split sep s = piece :: pieces.
Proof.
  induction s as [|c s (piece & pieces & IH)]; simpl; [by eexists _, _|].
  destruct (Ascii.eqb c sep); [by eexists _, _|].
  rewrite IH. by eexists _, _.
Qed.

Lemma append_cons c s rest : String c s +:+ rest = String c (s +:+ rest).
Proof. done. Qed.

Lemma append_empty_r s : s +:+ "" = s.
Proof. induction s as [|c s IH]; [done|]. by rewrite append_cons, IH. Qed.

Lemma split_slashFree s rest piece pieces :
  slashFree s → split "/"%char rest = piece :: pieces →
  split "/"%char (s +:+ rest) = (s +:+ piece) :: pieces.
Proof.
  intros Hs Hrest. induction s as [|c s IH]; [done|].
  unfold slashFree in *. cbn [chars String.list_ascii_of_string] in Hs.
  apply not_elem_of_cons in Hs as [Hc Hs].
  rewrite append_cons. cbn [split].
  assert (Ascii.eqb c "/"%char = false) as ->
    by (apply Ascii.eqb_neq; congruence).
  by rewrite (IH Hs).
Qed.

Lemma split_joinPath segments :
  Forall slashFree segments →
  split "/"%char (joinPath segments) = "" :: segments.
Proof.
  induction 1 as [|segment segments Hs _ IH]; [done|].
  change (joinPath (segment :: segments))
    with (String "/"%char (segment +:+ joinPath segments)).
  cbn [split]. rewrite Ascii.eqb_refl.
  by rewrite (split_slashFree segment _ "" segments Hs IH), append_empty_r.
Qed.

(** X11. On the path [/s1/.../sn], where a segment may be empty (a doubled or
    trailing slash), [detectFromPath] normalizes the segment at the
    configured index among the non-empty ones, and returns nothing, without
    an error, when the index is negative or past the last of them. *)
Theorem detectFromPath_segments ctx options segments :
  pathname (req ctx) = Normal (joinPath segments) →
  Forall slashFree segments →
  detectFromPath ctx options =
    Normal (normalizeLanguage
              (match at_index (List.filter truthy segments)
                              (lookupFromPathIndex options) with
               | Some s => CString s
               | None => CUndefined
               end) options)
  ∧ (lookupFromPathIndex options < 0
     ∨ Z.of_nat (length (List.filter truthy segments))
       <= lookupFromPathIndex options →
     detectFromPath ctx options = Normal None).
Proof.
  intros Hpath Hsegments.
  assert (detectFromPath ctx options =
    Normal (normalizeLanguage
              (match at_index (List.filter truthy segments)
                              (lookupFromPathIndex options) with
               | Some s => CString s
               | None => CUndefined
               end) options)) as Heq.
  { unfold detectFromPath. rewrite Hpath. simpl.
    by rewrite (split_joinPath segments Hsegments). }
  split; [done|]. intros Hout. rewrite Heq. unfold at_index.
  destruct (Z.ltb_spec (lookupFromPathIndex options) 0) as [|Hpos]; [done|].
  destruct Hout as [|Hout]; [lia|].
  rewrite (lookup_ge_None_2 (List.filter truthy segments)) by lia. done.
Qed.

(** [//es/test/] holds the segments ['es'] and ['test']. *)
Lemma detectFromPath_segments_witness :
  detectFromPath (pathRequest (joinPath [""; "es"; "test"; ""]))
    (mergeOptions DEFAULT_OPTIONS threeLanguages)
  = Normal (Some "es").
Proof.
  refine (proj1 (detectFromPath_segments
                   (pathRequest (joinPath [""; "es"; "test"; ""]))
                   (mergeOptions DEFAULT_OPTIONS threeLanguages)
                   [""; "es"; "test"; ""] eq_refl _)).
  repeat constructor; apply (bool_decide_unpack _); reflexivity.
Defined.

(** ** [detectFromHeader], further *)

Lemma normalizeLanguage_truthy lang options :
  truthy_opt (normalizeLanguage lang options) = false →
  normalizeLanguage lang options = None.
Proof.
  destruct (normalizeLanguage lang options) as [l|] eqn:H; [|done].
  apply normalizeLanguage_supported in H as [_ Hl%truthy_true].
  simpl. congruence.
Qed.

Lemma firstNormalized_first languages options l :
  firstNormalized languages options = Some l ↔
  ∃ pre lang w post,
    languages = pre ++ (lang, w) :: post
    ∧ (∀ x, x ∈ pre → normalizeLanguage (CString x.1) options = None)
    ∧ normalizeLanguage (CString lang) options = Some l.
Proof.
  induction languages as [|[lang w] languages IH]; cbn [firstNormalized].
  - split; [done|]. intros (pre & ? & ? & ? & H & _). by destruct pre.
  - destruct (truthy_opt _) eqn:Ht.
    + split.
      * intros H. exists [], lang, w, languages. split; [done|].
        split; [|done]. intros x []%elem_of_nil.
      * intros (pre & lang' & w' & post & Heq & Hpre & Hl).
        destruct pre as [|x pre]; simplify_eq/=; [done|].
        assert (normalizeLanguage (CString lang) options = None) as Hnone
          by (apply (Hpre (lang, w)); by left).
        by rewrite Hnone in Ht.
    + apply normalizeLanguage_truthy in Ht. rewrite IH. split.
      * intros (pre & lang' & w' & post & -> & Hpre & Hl).
        exists ((lang, w) :: pre), lang', w', post. split; [done|].
        split; [|done]. intros x [->|Hx]%elem_of_cons; auto.
      * intros (pre & lang' & w' & post & Heq & Hpre & Hl).
        destruct pre as [|x pre]; simplify_eq/=; try congruence.
        exists pre, lang', w', post. split; [done|]. split; [|done].
        intros y Hy. apply Hpre. by right.
Qed.

(** X12. [detectFromHeader] returns nothing for a missing or empty header,
    passes on an error of the header access, and otherwise returns the
    normalization of the first parsed entry, in the parser's order, whose
    type normalizes; entries before it are those that do not. *)
Theorem detectFromHeader_first ctx options :
  (get (req ctx) (lookupFromHeaderKey options) = Normal None
   ∨ get (req ctx) (lookupFromHeaderKey options) = Normal (Some "") →
   detectFromHeader ctx options = Normal None)
  ∧ (∀ e, get (req ctx) (lookupFromHeaderKey options) = Throw e →
          detectFromHeader ctx options = Throw e)
  ∧ (∀ header l,
       get (req ctx) (lookupFromHeaderKey options) = Normal (Some header) →
       header ≠ "" →
       detectFromHeader ctx options = Normal (Some l) ↔
       ∃ pre lang w post,
         parseAcceptLanguage header = pre ++ (lang, w) :: post
         ∧ (∀ x, x ∈ pre → normalizeLanguage (CString x.1) options = None)
         ∧ normalizeLanguage (CString lang) options = Some l).
Proof.
  unfold detectFromHeader. split; [|split].
  - by intros [-> | ->].
  - by intros e ->.
  - intros header l -> Hh%truthy_true. simpl. rewrite Hh. simpl.
    rewrite <- firstNormalized_first. split; [by intros [= ->]|by intros ->].
Qed.

(** [accept-language: de;q=0.9,fr;q=0.8] with ['en', 'fr', 'es']: [de] does
    not normalize, [fr] does. *)
Lemma detectFromHeader_first_witness :
  detectFromHeader (request None None (Some "de;q=0.9,fr;q=0.8"))
    (mergeOptions DEFAULT_OPTIONS threeLanguages) = Normal (Some "fr").
Proof.
  destruct (detectFromHeader_first
              (request None None (Some "de;q=0.9,fr;q=0.8"))
              (mergeOptions DEFAULT_OPTIONS threeLanguages))
    as (_ & _ & Hfirst).
  apply (Hfirst "de;q=0.9,fr;q=0.8" "fr"); [reflexivity|discriminate|].
  exists [("de", 0.9%Q)], "fr", 0.8%Q, []. split; [reflexivity|].
  split; [|reflexivity].
  intros x ->%list_elem_of_singleton. reflexivity.
Defined.

